(** * backend/search_routes.py: the route scanner of tranch-platform

    The script opens [server.js], reads it with [readlines()], and runs three
    filter-and-print loops over the numbered lines, each under a fixed banner.

    Layout:
    - [Py]: the Python built-ins the script calls ([in] on [str],
      [str.strip], [str(int)], text-mode [readlines], [enumerate], [print]);
    - [SearchRoutes]: the script body, statement by statement;
    - [Report]: how a reader of standard output sees the run (output lines,
      banners, sections, printed line numbers);
    - [Samples]: concrete files and processes;
    - [Variants]: variants of a file and the reading back of an entry;
    - [PyFacts], [ScriptFacts]: lemmas on the built-ins and on the loops;
    - [Properties]: the properties of the scanner;
    - [MoreFacts], [MoreProperties]: reading, trimming and numbering, and
      what they give for whole runs;
    - [Runtime], [RuntimeSamples], [RuntimeFacts], [RuntimeProperties]: the
      same statements in a process that decodes the file and whose standard
      output encodes, translates newlines and can refuse a write. *)

From Stdlib Require Import Decimal DecimalN Ascii String.
From Stdlib Require Import NArith PeanoNat Bool List Sorted Lia.
Import ListNotations.

Local Open Scope N_scope.
Local Open Scope list_scope.

(** ** Python built-ins *)
Module Py.

(** A Python [str] is a sequence of Unicode code points. *)
Definition char := N.
Definition str := list char.

(** A source literal ['...'] (all the script's literals are ASCII). *)
Definition lit (s : string) : str := map N_of_ascii (list_ascii_of_string s).

Definition LF : char := 10.
Definition CR : char := 13.

(** [str.isspace] on one code point, as used by [str.strip()] without
    argument: the characters CPython's [Py_UNICODE_ISSPACE] accepts. *)
Definition isspace (c : char) : bool :=
  ((9 <=? c) && (c <=? 13)) || ((28 <=? c) && (c <=? 32))
  || (c =? 133) || (c =? 160) || (c =? 5760)
  || ((8192 <=? c) && (c <=? 8202))
  || (c =? 8232) || (c =? 8233) || (c =? 8239) || (c =? 8287) || (c =? 12288).

(** [s.startswith(p)] *)
Fixpoint startswith (p s : str) : bool :=
  match p, s with
  | [], _ => true
  | _ :: _, [] => false
  | a :: p', b :: s' => (a =? b) && startswith p' s'
  end.

(** [p in s] on strings: [p] occurs at some offset of [s]. *)
Fixpoint str_in (p s : str) : bool :=
  startswith p s ||
  match s with
  | [] => false
  | _ :: s' => str_in p s'
  end.

(** [any(...)] over a list. *)
Definition any {A} (f : A -> bool) (l : list A) : bool := existsb f l.

(** [s.lstrip()], [s.rstrip()], [s.strip()] *)
Fixpoint lstrip (s : str) : str :=
  match s with
  | [] => []
  | c :: s' => if isspace c then lstrip s' else s
  end.

Definition rstrip (s : str) : str := rev (lstrip (rev s)).

Definition strip (s : str) : str := rstrip (lstrip s).

(** [str(i)] for a non-negative [int]: its decimal digits. *)
Fixpoint digits (d : Decimal.uint) : str :=
  match d with
  | Nil => []
  | D0 d => 48 :: digits d
  | D1 d => 49 :: digits d
  | D2 d => 50 :: digits d
  | D3 d => 51 :: digits d
  | D4 d => 52 :: digits d
  | D5 d => 53 :: digits d
  | D6 d => 54 :: digits d
  | D7 d => 55 :: digits d
  | D8 d => 56 :: digits d
  | D9 d => 57 :: digits d
  end.

Definition str_of_int (i : N) : str := digits (N.to_uint i).

(** [enumerate(l, start)] *)
Fixpoint enumerate {A} (l : list A) (start : N) : list (N * A) :=
  match l with
  | [] => []
  | x :: l' => (start, x) :: enumerate l' (N.succ start)
  end.

(** Text mode with the default [newline=None]: on input, ["\r\n"] and a lone
    ["\r"] are delivered as ["\n"].  [after_cr] records that the previous
    character was a ["\r"], already delivered as ["\n"]. *)
Fixpoint universal_newlines (after_cr : bool) (s : str) : str :=
  match s with
  | [] => []
  | c :: s' =>
      if c =? CR then LF :: universal_newlines true s'
      else if (c =? LF) && after_cr then universal_newlines false s'
      else c :: universal_newlines false s'
  end.

(** Cutting a text after each ["\n"]; the terminator stays on its line, and a
    last line without terminator is kept as it is. *)
Fixpoint split_keepends (s : str) : list str :=
  match s with
  | [] => []
  | c :: s' =>
      if c =? LF then [c] :: split_keepends s'
      else match split_keepends s' with
           | [] => [[c]]
           | l :: ls => (c :: l) :: ls
           end
  end.

(** [f.readlines()] on a file opened with [open(path, 'r')], from the decoded
    characters of the file. *)
Definition readlines (decoded : str) : list str :=
  split_keepends (universal_newlines false decoded).

(** Standard output is the stream of characters written so far;
    [print(s)] writes [s] and a newline.  The stream accepts every write:
    this is the standard output the design assumes; [Runtime] runs the
    script on one that encodes and can fail. *)
Definition print (s : str) (stdout : str) : str := stdout ++ s ++ [LF].

End Py.

(** ** The script

    Line 2 of the script imports [re] and never uses it; the model starts at
    the [with] statement. *)
Module SearchRoutes.
Import Py.

(** What [open('server.js', 'r')] followed by [f.readlines()] meets in the
    working directory: either the block raises (no such file, no permission,
    a directory, bytes that do not decode), or the file delivers its decoded
    characters. *)
Inductive file_state :=
| Unreadable
| Readable (decoded : str).

(** What a process can observe when it starts, with the file as the text
    the read delivers.  The script names neither [sys.argv] nor
    [os.environ]. *)
Record world := World {
  argv : list str;
  environ : list (str * str);
  server_js : file_state
}.

(** What a run leaves behind: the characters on standard output and the exit
    status (0 at the end of the script, 1 for an uncaught exception). *)
Record run := Run {
  stdout : str;
  status : N
}.

(** [with open('server.js', 'r') as f: lines = f.readlines()];
    [None] stands for the exception leaving the [with] block. *)
Definition read_lines (f : file_state) : option (list str) :=
  match f with
  | Unreadable => None
  | Readable decoded => Some (readlines decoded)
  end.

(** The conditions of the three [if] statements. *)
Definition is_route_import (line : str) : bool :=
  str_in (lit "require") line
  && (str_in (lit "routes/") line || str_in (lit "Routes") line).

Definition is_route_mount (line : str) : bool :=
  str_in (lit "app.use") line
  && (str_in (lit "/api") line || str_in (lit "Routes") line).

Definition route_files : list str :=
  [lit "ai-chat"; lit "document-analyzer"; lit "geocoding"].

Definition is_route_file (line : str) : bool :=
  any (fun route => str_in route line) route_files.

(** [f"Line {i}: {line.strip()}"] *)
Definition fstring (i : N) (line : str) : str :=
  lit "Line " ++ str_of_int i ++ lit ": " ++ strip line.

(** [for i, line in enumerate(lines, 1): if cond(line): print(f"...")] *)
Definition for_lines (cond : str -> bool) (lines : list str) (out : str) : str :=
  fold_left
    (fun out '(i, line) => if cond line then print (fstring i line) out else out)
    (enumerate lines 1) out.

(** The three banners, as the string literals of the three top-level
    [print] calls; the second and third start with ["\n"]. *)
Definition title_imports : str := lit "=== Route imports (require statements) ===".
Definition title_mounting : str := lit "=== Route mounting (app.use statements) ===".
Definition title_files : str := lit "=== Specific route files mentioned ===".

(** The statements after the [with] block, in order. *)
Definition scan (lines : list str) (out : str) : str :=
  let out := print title_imports out in
  let out := for_lines is_route_import lines out in
  let out := print (LF :: title_mounting) out in
  let out := for_lines is_route_mount lines out in
  let out := print (LF :: title_files) out in
  let out := for_lines is_route_file lines out in
  out.

(** The module body. *)
Definition main (w : world) : run :=
  match read_lines (server_js w) with
  | None => {| stdout := []; status := 1 |}
  | Some lines => {| stdout := scan lines []; status := 0 |}
  end.

End SearchRoutes.

(** ** Reading the report *)
Module Report.
Import Py SearchRoutes.

(** [pat] occurs in [s] as a contiguous block. *)
Definition occurs (pat s : str) : Prop :=
  exists pre post, s = pre ++ pat ++ post.

(** A pattern whose first character, if any, is no white space: it cannot
    start at a white-space character. *)
Definition solid_head (p : str) : Prop :=
  match p with [] => True | a :: _ => isspace a = false end.

(** The shape of a line that [readlines] delivers: no newline, except
    possibly as its last character. *)
Definition file_line (l : str) : Prop :=
  exists body, ~ In LF body /\ (l = body \/ l = body ++ [LF]).

(** [line] is line number [i] of the file whose decoded text is [decoded]. *)
Definition line_at (decoded : str) (i : N) (line : str) : Prop :=
  In (i, line) (enumerate (readlines decoded) 1).

(** The lines of an output stream: the blocks between newlines. *)
Fixpoint lines_of (s : str) : list str :=
  match s with
  | [] => []
  | c :: s' =>
      if c =? LF then [] :: lines_of s'
      else match lines_of s' with
           | [] => [[c]]
           | l :: ls => (c :: l) :: ls
           end
  end.

(** [a == b] on strings. *)
Fixpoint str_eqb (a b : str) : bool :=
  match a, b with
  | [], [] => true
  | x :: a', y :: b' => (x =? y) && str_eqb a' b'
  | _, _ => false
  end.

(** A banner line has the shape [=== <title> ===]. *)
Definition is_banner (l : str) : bool := startswith (lit "=== ") l.

Definition banners (ls : list str) : list str := filter is_banner ls.

(** The section under a banner: the output lines that follow the first line
    equal to [title], up to the next banner or the end of the output. *)
Fixpoint until_banner (ls : list str) : list str :=
  match ls with
  | [] => []
  | l :: ls' => if is_banner l then [] else l :: until_banner ls'
  end.

Fixpoint section (title : str) (ls : list str) : list str :=
  match ls with
  | [] => []
  | l :: ls' => if str_eqb l title then until_banner ls' else section title ls'
  end.

(** The numbered lines a loop with condition [cond] selects, and what it
    prints for them. *)
Definition selected (cond : str -> bool) (lines : list str) : list (N * str) :=
  filter (fun il => cond (snd il)) (enumerate lines 1).

Definition entries (cond : str -> bool) (lines : list str) : list str :=
  map (fun il => fstring (fst il) (snd il)) (selected cond lines).

(** Sections are separated by blank lines; what a section reports is its
    lines that are not blank. *)
Definition reported (sec : list str) : list str :=
  filter (fun l => negb (str_eqb l [])) sec.

(** The three sections of a run. *)
Definition section_imports (r : run) : list str :=
  reported (section title_imports (lines_of (stdout r))).
Definition section_mounting (r : run) : list str :=
  reported (section title_mounting (lines_of (stdout r))).
Definition section_files (r : run) : list str :=
  reported (section title_files (lines_of (stdout r))).

(** Reading back the number of an output line [Line <n>: ...]. *)
Definition digit_of (c : char) : option (Decimal.uint -> Decimal.uint) :=
  if c =? 48 then Some D0 else if c =? 49 then Some D1
  else if c =? 50 then Some D2 else if c =? 51 then Some D3
  else if c =? 52 then Some D4 else if c =? 53 then Some D5
  else if c =? 54 then Some D6 else if c =? 55 then Some D7
  else if c =? 56 then Some D8 else if c =? 57 then Some D9
  else None.

Fixpoint read_uint (s : str) : Decimal.uint * str :=
  match s with
  | [] => (Nil, [])
  | c :: s' =>
      match digit_of c with
      | Some D => let (d, rest) := read_uint s' in (D d, rest)
      | None => (Nil, s)
      end
  end.

Definition lineno (l : str) : option N :=
  if startswith (lit "Line ") l then
    match read_uint (skipn 5 l) with
    | (Nil, _) => None
    | (d, rest) => if startswith (lit ": ") rest then Some (N.of_uint d) else None
    end
  else None.

(** The line numbers printed in a section, in print order. *)
Definition linenos (sec : list str) : list N :=
  flat_map (fun l => match lineno l with Some n => [n] | None => [] end) sec.

(** The fixed patterns of the three conditions. *)
Definition search_patterns : list str :=
  [lit "require"; lit "routes/"; lit "Routes"; lit "app.use"; lit "/api";
   lit "ai-chat"; lit "document-analyzer"; lit "geocoding"].

End Report.

(** ** Sample runs *)
Module Samples.
Import Py SearchRoutes.

Definition text_of (ls : list str) : str :=
  concat (map (fun l => l ++ [LF]) ls).

(** A small [server.js] with an import, a mount and a comment; the named
    lines are raw, with their terminator. *)
Definition import_line : str :=
  lit "const aiChatRoutes = require('./routes/ai-chat');" ++ [LF].
Definition mount_line : str := lit "app.use('/api/chat', aiChatRoutes);" ++ [LF].
Definition comment_line : str := lit "// geocoding" ++ [LF].

Definition server_text : str :=
  lit "const express = require('express');" ++ [LF]
  ++ import_line ++ mount_line ++ comment_line
  ++ lit "app.use(cors())".

Definition server_world : world :=
  {| argv := [lit "search_routes.py"]; environ := []; server_js := Readable server_text |}.

(** A file whose fifth line, indented and ended by ["\r\n"], is the only
    one any loop selects. *)
Definition ai_chat_text : str :=
  text_of [lit "const express = require('express');";
           lit "const cors = require('cors');";
           [];
           lit "const app = express();"]
  ++ lit "  const aiChatRoutes = require('./routes/ai-chat');" ++ [CR; LF]
  ++ text_of [lit "app.listen(3000);"].

Definition ai_chat_world : world :=
  {| argv := []; environ := []; server_js := Readable ai_chat_text |}.

Definition empty_world : world :=
  {| argv := []; environ := []; server_js := Readable [] |}.

(** Settles a membership in a list that computes to explicit elements. *)
Ltac in_computed_list :=
  vm_compute;
  repeat match goal with
         | |- ?a = ?a \/ _ => left; reflexivity
         | |- ?a = ?a => reflexivity
         | |- _ \/ _ => right
         end.

End Samples.

(** ** Variants of a file, and reading entries back *)
Module Variants.
Import Py SearchRoutes Report Samples.

(** The same text saved with Windows line ends: each ["\n"] becomes
    ["\r\n"]. *)
Fixpoint to_crlf (s : str) : str :=
  match s with
  | [] => []
  | c :: s' => if c =? LF then CR :: LF :: to_crlf s' else c :: to_crlf s'
  end.

(** Two raw lines that differ in surrounding white space only. *)
Definition same_trimmed (a b : str) : Prop := strip a = strip b.

(** Reading an output line [Line <n>: <text>] back into its number and its
    text. *)
Definition parse_entry (l : str) : option (N * str) :=
  if startswith (lit "Line ") l then
    match read_uint (skipn 5 l) with
    | (Nil, _) => None
    | (d, rest) =>
        if startswith (lit ": ") rest then Some (N.of_uint d, skipn 2 rest)
        else None
    end
  else None.

(** The three conditions, in the order of the loops. *)
Definition conditions : list (str -> bool) :=
  [is_route_import; is_route_mount; is_route_file].

(** The three sections of a run, in the same order. *)
Definition sections_of (r : run) : list (list str) :=
  [section_imports r; section_mounting r; section_files r].

(** The sample file with Windows line ends, and with its first four lines
    only. *)
Definition crlf_world : world :=
  {| argv := []; environ := []; server_js := Readable (to_crlf server_text) |}.

Definition server_head : str :=
  lit "const express = require('express');" ++ [LF]
  ++ import_line ++ mount_line ++ lit "// geocoding".

Definition head_world : world :=
  {| argv := []; environ := [];
     server_js := Readable (server_head ++ [LF]) |}.

(** The sample file with a final newline, and one with other indentation. *)
Definition closed_world : world :=
  {| argv := []; environ := [];
     server_js := Readable (server_text ++ [LF]) |}.

Definition indented_text : str :=
  lit "const express = require('express');" ++ [LF]
  ++ lit "    " ++ import_line
  ++ [9] ++ lit "app.use('/api/chat', aiChatRoutes);  " ++ [LF]
  ++ comment_line
  ++ lit "app.use(cors())".

Definition indented_world : world :=
  {| argv := []; environ := []; server_js := Readable indented_text |}.

End Variants.

(** ** The script on a real standard output

    [SearchRoutes.main] runs the script where the file is already text and
    [print] always succeeds.  Here the same statements run in a process that
    decodes the bytes of [server.js] with the encoding of its locale, and
    whose standard output encodes what [print] writes, writes its own line
    separator for each newline, and sits on a device that may refuse a
    write. *)
Module Runtime.
Import Py SearchRoutes Report.

(** A text encoding with [errors='strict']: [decode] is [bytes.decode] on a
    whole file, [encode] gives the bytes of one character; [None] is the
    codec's error.  (Encodings that write a byte order mark or keep a shift
    state between characters are not of this shape.) *)
Record codec := Codec {
  decode : list Byte.byte -> option str;
  encode : char -> option (list Byte.byte)
}.

Definition ascii : codec :=
  {| decode bs :=
       if forallb (fun b => Byte.to_N b <? 128) bs
       then Some (map Byte.to_N bs) else None;
     encode c :=
       if c <? 128 then option_map (fun b => [b]) (Byte.of_N c) else None |}.

Definition latin_1 : codec :=
  {| decode bs := Some (map Byte.to_N bs);
     encode c := option_map (fun b => [b]) (Byte.of_N c) |}.


(** [server.js] on disk: a path that [open] refuses (no such file, no
    permission, a directory), or the bytes of the file. *)
Inductive file :=
| Unopenable
| Content (bytes : list Byte.byte).

(** The device behind standard output: [fault_at = Some n] makes write
    number [n] (from 0) raise [OSError]; [flush_fails] makes the flush at
    exit fail when something was written. *)
Record device := Device {
  fault_at : option nat;
  flush_fails : bool
}.

(** A process that runs the script. *)
Record process := Process {
  p_argv : list str;
  p_environ : list (str * str);
  text_codec : codec;
  out_codec : codec;
  linesep : str;
  dev : device;
  server_file : file
}.

(** The exceptions of a run: [OpenError] stands for the [OSError] that
    [open] raises, [WriteError] for the [OSError] of a refused write. *)
Inductive exn := OpenError | UnicodeDecodeError | UnicodeEncodeError | WriteError.

(** Standard output while the script runs: the number of writes done and the
    characters they have put out. *)
Record out_state := Out {
  count : nat;
  text : str
}.

(** Statements: they change the output and end normally or by raising. *)
Definition io (A : Type) : Type := out_state -> (exn + A) * out_state.

Definition ret {A} (x : A) : io A := fun st => (inr x, st).

Definition raise {A} (e : exn) : io A := fun st => (inl e, st).

Definition bind {A B} (c : io A) (k : A -> io B) : io B :=
  fun st =>
    match c st with
    | (inl e, st') => (inl e, st')
    | (inr x, st') => k x st'
    end.

Notation "x <- c ;; k" := (bind c (fun x => k))
  (at level 61, c at next level, right associativity).
Notation "c ;; k" := (bind c (fun _ => k))
  (at level 61, right associativity).

(** Each ["\n"] written becomes the line separator of the platform. *)
Definition translate (sep : str) (s : str) : str :=
  flat_map (fun c => if c =? LF then sep else [c]) s.

Definition encodable (p : process) (c : char) : bool :=
  match encode (out_codec p) c with Some _ => true | None => false end.

(** [sys.stdout.write(t)]: the text is encoded as a whole, then handed to
    the device. *)
Definition write (p : process) (t : str) : io unit :=
  fun st =>
    let t' := translate (linesep p) t in
    if forallb (encodable p) t' then
      match fault_at (dev p) with
      | Some n =>
          if Nat.eqb n (count st) then (inl WriteError, st)
          else (inr tt, {| count := S (count st); text := text st ++ t' |})
      | None => (inr tt, {| count := S (count st); text := text st ++ t' |})
      end
    else (inl UnicodeEncodeError, st).

(** [print(s)] writes [s], then the end of line. *)
Definition print_on (p : process) (s : str) : io unit :=
  write p s ;; write p [LF].

(** [with open('server.js', 'r') as f: lines = f.readlines()] *)
Definition read_on (p : process) : io (list str) :=
  match server_file p with
  | Unopenable => raise OpenError
  | Content bytes =>
      match decode (text_codec p) bytes with
      | None => raise UnicodeDecodeError
      | Some decoded => ret (readlines decoded)
      end
  end.

(** [for x in items: body(x)] *)
Fixpoint for_each {A} (items : list A) (body : A -> io unit) : io unit :=
  match items with
  | [] => ret tt
  | x :: rest => body x ;; for_each rest body
  end.

Definition for_lines_on (p : process) (cond : str -> bool) (lines : list str)
  : io unit :=
  for_each (enumerate lines 1)
    (fun '(i, line) =>
       if cond line then print_on p (fstring i line) else ret tt).

(** The module body. *)
Definition script (p : process) : io unit :=
  lines <- read_on p ;;
  print_on p title_imports ;;
  for_lines_on p is_route_import lines ;;
  print_on p (LF :: title_mounting) ;;
  for_lines_on p is_route_mount lines ;;
  print_on p (LF :: title_files) ;;
  for_lines_on p is_route_file lines.

(** What a run leaves behind: the characters written, the exception that
    ended the script if any, and the exit status: 1 for an uncaught
    exception, 120 when the flush at exit fails. *)
Record outcome := Outcome {
  written : str;
  raised : option exn;
  exit_status : N
}.

Definition run_on (p : process) : outcome :=
  match script p {| count := 0; text := [] |} with
  | (r, st) =>
      {| written := text st;
         raised := match r with inl e => Some e | inr _ => None end;
         exit_status :=
           if flush_fails (dev p) && negb (str_eqb (text st) []) then 120
           else match r with inl _ => 1 | inr _ => 0 end |}
  end.

(** The bytes of the characters written. *)
Definition bytes_of (p : process) (s : str) : list Byte.byte :=
  flat_map (fun c => match encode (out_codec p) c with
                     | Some bs => bs
                     | None => []
                     end) s.

(** What the device has received after the run, when it refused nothing
    ([None]: it refused a write or the flush, and what it holds is not
    known). *)
Definition output_bytes (p : process) : option (list Byte.byte) :=
  let r := run_on p in
  match raised r with
  | Some WriteError => None
  | _ => if exit_status r =? 120 then None else Some (bytes_of p (written r))
  end.


(** The text the read delivers, if it succeeds. *)
Definition decoded_file (p : process) : option str :=
  match server_file p with
  | Unopenable => None
  | Content bytes => decode (text_codec p) bytes
  end.

(** The same process as [SearchRoutes] sees it: the file already decoded. *)
Definition seen (p : process) : world :=
  {| argv := p_argv p;
     environ := p_environ p;
     server_js := match decoded_file p with
                  | None => Unreadable
                  | Some decoded => Readable decoded
                  end |}.

(** The writes a complete scan of [lines] asks for, in order: banner, end of
    line, entry, end of line, ... *)
Definition prints_of (lines : list str) : list str :=
  title_imports :: entries is_route_import lines
  ++ (LF :: title_mounting) :: entries is_route_mount lines
  ++ (LF :: title_files) :: entries is_route_file lines.

Definition writes_of (lines : list str) : list str :=
  flat_map (fun s => [s; [LF]]) (prints_of lines).

(** Every character of [t], as standard output would write it, has an
    encoding. *)
Definition chunk_ok (p : process) (t : str) : bool :=
  forallb (encodable p) (translate (linesep p) t).

(** The device refuses none of the [n] writes that follow [st]. *)
Definition no_fault (p : process) (st : out_state) (n : nat) : Prop :=
  forall k, fault_at (dev p) = Some k ->
            (k < count st)%nat \/ (count st + n <= k)%nat.

(** Standard output takes all of these writes: every character has an
    encoding, the device refuses none of them, nor the flush. *)
Definition stdout_takes (p : process) (ws : list str) : bool :=
  forallb (chunk_ok p) ws
  && match fault_at (dev p) with
     | Some n => Nat.leb (length ws) n
     | None => true
     end
  && negb (flush_fails (dev p)).

End Runtime.

(** ** Sample processes *)
Module RuntimeSamples.
Import Py SearchRoutes Runtime.

Definition bytes_of_string (s : string) : list Byte.byte :=
  map byte_of_ascii (list_ascii_of_string s).

(** A [server.js] saved in Latin-1, with an e acute (byte E9) in a route
    name. *)
Definition cafe_bytes : list Byte.byte :=
  bytes_of_string "const cafeRoutes = require('./routes/caf"
  ++ [Byte.xe9] ++ bytes_of_string "');" ++ [Byte.x0a]
  ++ bytes_of_string "app.use('/api/cafe', cafeRoutes);" ++ [Byte.x0a].

Definition quiet_device : device := {| fault_at := None; flush_fails := false |}.

(** A Latin-1 locale on both sides. *)
Definition latin_process : process :=
  {| p_argv := [lit "search_routes.py"];
     p_environ := [(lit "LANG", lit "en_US.ISO-8859-1")];
     text_codec := latin_1; out_codec := latin_1;
     linesep := [LF]; dev := quiet_device;
     server_file := Content cafe_bytes |}.

(** The same, but standard output encodes in ASCII. *)
Definition ascii_out_process : process :=
  {| p_argv := [lit "search_routes.py"];
     p_environ := [(lit "LANG", lit "en_US.ISO-8859-1");
                   (lit "PYTHONIOENCODING", lit "ascii")];
     text_codec := latin_1; out_codec := ascii;
     linesep := [LF]; dev := quiet_device;
     server_file := Content cafe_bytes |}.


(** Standard output on a full disk: the flush at exit fails. *)
Definition full_disk_process : process :=
  {| p_argv := [lit "search_routes.py"];
     p_environ := [];
     text_codec := latin_1; out_codec := latin_1;
     linesep := [LF];
     dev := {| fault_at := None; flush_fails := true |};
     server_file := Content cafe_bytes |}.




(** An ASCII file with Windows line ends. *)
Definition crlf_bytes : list Byte.byte :=
  bytes_of_string "app.use('/api/chat', aiChatRoutes);"
  ++ [Byte.x0d; Byte.x0a]
  ++ bytes_of_string "// geocoding" ++ [Byte.x0d; Byte.x0a].

Definition crlf_process : process :=
  {| p_argv := []; p_environ := [];
     text_codec := latin_1; out_codec := latin_1;
     linesep := [LF]; dev := quiet_device;
     server_file := Content crlf_bytes |}.

Definition no_file_process : process :=
  {| p_argv := []; p_environ := [];
     text_codec := latin_1; out_codec := latin_1;
     linesep := [LF]; dev := quiet_device;
     server_file := Unopenable |}.

End RuntimeSamples.

(** ** Facts about the built-ins *)
Module PyFacts.
Import Py Report.

Lemma startswith_spec (p s : str) :
  startswith p s = true <-> exists post, s = p ++ post.
Proof.
  revert s; induction p as [|a p IH]; intros s; simpl.
  - split; [intros _; now exists s | reflexivity].
  - destruct s as [|b s]; simpl.
    + split; [discriminate | intros [post H]; discriminate].
    + rewrite andb_true_iff, N.eqb_eq, IH. split.
      * intros [-> [post ->]]. now exists post.
      * intros [post H]. injection H as -> ->. split; [reflexivity | now exists post].
Qed.

Lemma str_in_spec (p s : str) : str_in p s = true <-> occurs p s.
Proof.
  induction s as [|c s IH].
  - simpl. rewrite orb_false_r, startswith_spec. split.
    + intros [post H]. exists [], post. exact H.
    + intros [pre [post H]]. destruct pre; simpl in H.
      * now exists post.
      * discriminate.
  - change (str_in p (c :: s)) with (startswith p (c :: s) || str_in p s).
    rewrite orb_true_iff, startswith_spec, IH. split.
    + intros [[post H] | [pre [post H]]].
      * exists [], post. exact H.
      * exists (c :: pre), post. now rewrite H.
    + intros [pre [post H]]. destruct pre as [|c' pre]; simpl in H.
      * left. now exists post.
      * right. injection H as _ ->. now exists pre, post.
Qed.

Lemma occurs_rev (p s : str) : occurs p s -> occurs (rev p) (rev s).
Proof.
  intros [pre [post ->]]. exists (rev post), (rev pre).
  now rewrite !rev_app_distr, app_assoc.
Qed.

Lemma str_in_rev (p s : str) : str_in (rev p) (rev s) = str_in p s.
Proof.
  apply eq_true_iff_eq. rewrite !str_in_spec. split; intros H.
  - apply occurs_rev in H. now rewrite !rev_involutive in H.
  - now apply occurs_rev.
Qed.

Lemma str_in_skip_space (p : str) (c : char) (s : str) :
  solid_head p -> isspace c = true -> str_in p (c :: s) = str_in p s.
Proof.
  intros Hp Hc. destruct p as [|a p].
  - simpl. now destruct s.
  - change (str_in (a :: p) (c :: s))
      with (startswith (a :: p) (c :: s) || str_in (a :: p) s).
    simpl in Hp. simpl startswith.
    destruct (N.eqb_spec a c) as [->|_]; [congruence | reflexivity].
Qed.

Lemma str_in_lstrip (p s : str) :
  solid_head p -> str_in p (lstrip s) = str_in p s.
Proof.
  intros Hp. induction s as [|c s IH]; [reflexivity|].
  simpl lstrip. destruct (isspace c) eqn:Hc; [|reflexivity].
  now rewrite IH, str_in_skip_space.
Qed.

Lemma str_in_rstrip (p s : str) :
  solid_head (rev p) -> str_in p (rstrip s) = str_in p s.
Proof.
  intros Hp. unfold rstrip.
  rewrite <- (str_in_rev p (rev _)), rev_involutive, str_in_lstrip by assumption.
  apply str_in_rev.
Qed.

(** [strip] cannot create or destroy an occurrence of a pattern whose two
    ends are no white space. *)
Lemma str_in_strip (p s : str) :
  solid_head p -> solid_head (rev p) -> str_in p (strip s) = str_in p s.
Proof.
  intros H1 H2. unfold strip. now rewrite str_in_rstrip, str_in_lstrip.
Qed.

(** A pattern without white space has solid ends. *)
Lemma solid_of_no_space (p : str) :
  forallb (fun c => negb (isspace c)) p = true ->
  solid_head p /\ solid_head (rev p).
Proof.
  intros H. rewrite forallb_forall in H.
  assert (G : forall q : str, (forall c, In c q -> In c p) -> solid_head q).
  { intros [|a q] Hq; simpl; [exact I|].
    specialize (H a (Hq a (or_introl eq_refl))). now destruct (isspace a). }
  split; apply G; [auto | intros c Hc; now apply in_rev].
Qed.

(** *** White space and newlines *)

Lemma In_lstrip (c : char) (s : str) : In c (lstrip s) -> In c s.
Proof.
  induction s as [|a s IH]; simpl; [tauto|].
  destruct (isspace a); simpl; tauto.
Qed.

Lemma In_rstrip (c : char) (s : str) : In c (rstrip s) -> In c s.
Proof.
  unfold rstrip. intros H. apply in_rev in H. apply In_lstrip in H.
  now apply in_rev.
Qed.

Lemma In_strip (c : char) (s : str) : In c (strip s) -> In c s.
Proof. intros H. now apply In_lstrip, In_rstrip. Qed.

Lemma rstrip_snoc_space (s : str) (c : char) :
  isspace c = true -> rstrip (s ++ [c]) = rstrip s.
Proof.
  intros Hc. unfold rstrip. rewrite rev_app_distr. simpl. now rewrite Hc.
Qed.

Lemma lstrip_snoc_space (s : str) (c : char) :
  isspace c = true ->
  lstrip (s ++ [c]) = lstrip s ++ [c] \/ (lstrip (s ++ [c]) = [] /\ lstrip s = []).
Proof.
  intros Hc. induction s as [|a s IH]; simpl.
  - rewrite Hc. now right.
  - destruct (isspace a); [exact IH | now left].
Qed.

Lemma strip_snoc_space (s : str) (c : char) :
  isspace c = true -> strip (s ++ [c]) = strip s.
Proof.
  intros Hc. unfold strip.
  destruct (lstrip_snoc_space s c Hc) as [-> | [-> ->]].
  - now apply rstrip_snoc_space.
  - reflexivity.
Qed.

Lemma strip_file_line (l : str) : file_line l -> ~ In LF (strip l).
Proof.
  intros [body [Hb [-> | ->]]] H.
  - now apply In_strip in H.
  - rewrite strip_snoc_space in H by reflexivity. now apply In_strip in H.
Qed.

Lemma split_keepends_file_line (s : str) :
  Forall file_line (split_keepends s).
Proof.
  induction s as [|c s IH]; simpl; [constructor|].
  destruct (N.eqb_spec c LF) as [->|Hc].
  - constructor; [|exact IH]. exists []. split; [tauto | now right].
  - destruct (split_keepends s) as [|l ls].
    + constructor; [|constructor]. exists [c]. split; [|now left].
      simpl. intros [E|[]]. congruence.
    + inversion IH as [|? ? [body [Hb Hl]] Hls]; subst.
      constructor; [|exact Hls]. exists (c :: body). split.
      * simpl. intros [E|E]; [congruence | tauto].
      * destruct Hl as [-> | ->]; [now left | now right].
Qed.

Lemma readlines_file_line (decoded : str) : Forall file_line (readlines decoded).
Proof. apply split_keepends_file_line. Qed.

(** *** Decimal numerals *)

Lemma digits_range (d : Decimal.uint) (c : char) :
  In c (digits d) -> 48 <= c <= 57.
Proof.
  induction d; simpl; try tauto; (intros [<- | H]; [lia | auto]).
Qed.

Lemma digit_of_digits (c : char) : 48 <= c <= 57 -> digit_of c <> None.
Proof.
  intros H. unfold digit_of.
  repeat match goal with
         | |- context [?a =? ?b] => destruct (N.eqb_spec a b); try discriminate
         end.
  lia.
Qed.

Lemma read_uint_digits (d : Decimal.uint) (rest : str) :
  match rest with [] => True | c :: _ => digit_of c = None end ->
  read_uint (digits d ++ rest) = (d, rest).
Proof.
  intros Hr. induction d; simpl;
    try (rewrite IHd; reflexivity).
  destruct rest as [|c rest]; simpl; [reflexivity | now rewrite Hr].
Qed.

Lemma to_uint_not_Nil (i : N) : N.to_uint i <> Nil.
Proof.
  intros H. pose proof (DecimalN.Unsigned.of_to i) as E. rewrite H in E.
  simpl in E. subst i. discriminate.
Qed.

End PyFacts.

(** ** Facts about the script and its report *)
Module ScriptFacts.
Import Py SearchRoutes Report PyFacts.

(** *** The loops *)

Lemma fold_print_app (cond : str -> bool) (items : list (N * str)) (out : str) :
  fold_left
    (fun out '(i, line) => if cond line then print (fstring i line) out else out)
    items out
  = out ++ flat_map (fun e => e ++ [LF])
             (map (fun il => fstring (fst il) (snd il))
                  (filter (fun il => cond (snd il)) items)).
Proof.
  revert out; induction items as [|[i line] items IH]; intros out; simpl.
  - now rewrite app_nil_r.
  - rewrite IH. destruct (cond line); [|reflexivity].
    unfold print. cbn [filter map flat_map fst snd]. now rewrite <- app_assoc.
Qed.

Lemma for_lines_app (cond : str -> bool) (lines : list str) (out : str) :
  for_lines cond lines out
  = out ++ flat_map (fun e => e ++ [LF]) (entries cond lines).
Proof. apply fold_print_app. Qed.

(** *** Numbered lines *)

Lemma enumerate_ge {A} (l : list A) (k i : N) (x : A) :
  In (i, x) (enumerate l k) -> k <= i.
Proof.
  revert k; induction l as [|y l IH]; intros k; simpl; [tauto|].
  intros [E | H].
  - injection E as <- _. lia.
  - apply IH in H. lia.
Qed.

Lemma enumerate_functional {A} (l : list A) (k i : N) (x y : A) :
  In (i, x) (enumerate l k) -> In (i, y) (enumerate l k) -> x = y.
Proof.
  revert k; induction l as [|z l IH]; intros k; simpl; [tauto|].
  intros [E1 | H1] [E2 | H2].
  - congruence.
  - injection E1 as <- _. apply enumerate_ge in H2. lia.
  - injection E2 as <- _. apply enumerate_ge in H1. lia.
  - eauto.
Qed.

Lemma enumerate_sorted {A} (l : list A) (k : N) :
  StronglySorted N.lt (map fst (enumerate l k)).
Proof.
  revert k; induction l as [|z l IH]; intros k; simpl; constructor.
  - apply IH.
  - apply Forall_forall. intros i Hi. apply in_map_iff in Hi.
    destruct Hi as [[j x] [<- Hj]]. apply enumerate_ge in Hj. simpl. lia.
Qed.

Lemma enumerate_snd {A} (l : list A) (k i : N) (x : A) :
  In (i, x) (enumerate l k) -> In x l.
Proof.
  revert k; induction l as [|z l IH]; intros k; simpl; [tauto|].
  intros [E | H]; [left; congruence | right; eauto].
Qed.

Lemma selected_sorted (cond : str -> bool) (lines : list str) :
  StronglySorted N.lt (map fst (selected cond lines)).
Proof.
  unfold selected.
  assert (G : forall items : list (N * str),
             StronglySorted N.lt (map fst items) ->
             StronglySorted N.lt (map fst (filter (fun il => cond (snd il)) items))).
  { induction items as [|a items IH]; simpl; intros H; [constructor|].
    inversion H as [|? ? Hs Hf]; subst.
    destruct (cond (snd a)); simpl; [|auto]. constructor; [auto|].
    rewrite Forall_forall in *. intros x Hx. apply Hf.
    apply in_map_iff in Hx. destruct Hx as [y [<- Hy]].
    apply filter_In in Hy. apply in_map. tauto. }
  apply G, enumerate_sorted.
Qed.

(** *** Printed entries *)

Lemma lineno_fstring (i : N) (line : str) : lineno (fstring i line) = Some i.
Proof.
  unfold lineno, fstring, str_of_int.
  change (lit "Line ") with [76; 105; 110; 101; 32].
  cbn [app startswith skipn N.eqb Pos.eqb andb].
  rewrite read_uint_digits by reflexivity.
  pose proof (to_uint_not_Nil i) as Hn.
  pose proof (DecimalN.Unsigned.of_to i) as Ho.
  destruct (N.to_uint i); [congruence | ..];
    change (startswith (lit ": ") (lit ": " ++ strip line)) with true;
    exact (f_equal Some Ho).
Qed.

Lemma fstring_number_inj (i j : N) (l l' : str) :
  fstring i l = fstring j l' -> i = j.
Proof.
  intros E. apply (f_equal lineno) in E. rewrite !lineno_fstring in E.
  congruence.
Qed.

Lemma fstring_not_banner (i : N) (line : str) : is_banner (fstring i line) = false.
Proof. reflexivity. Qed.

Lemma fstring_not_blank (i : N) (line : str) : fstring i line <> [].
Proof. discriminate. Qed.

Lemma no_LF_by_forallb (s : str) :
  forallb (fun c => negb (c =? LF)) s = true -> ~ In LF s.
Proof.
  intros H Hin. rewrite forallb_forall in H. specialize (H _ Hin).
  now rewrite N.eqb_refl in H.
Qed.

Lemma fstring_no_LF (i : N) (line : str) :
  file_line line -> ~ In LF (fstring i line).
Proof.
  intros Hl H. unfold fstring in H. rewrite !in_app_iff in H.
  destruct H as [H | [H | [H | H]]].
  - revert H. now apply no_LF_by_forallb.
  - apply digits_range in H. unfold LF in H. lia.
  - revert H. now apply no_LF_by_forallb.
  - now apply strip_file_line in H.
Qed.

Lemma entries_spec (cond : str -> bool) (lines : list str) (e : str) :
  In e (entries cond lines) <->
  exists i line, e = fstring i line /\ In (i, line) (enumerate lines 1)
                 /\ cond line = true.
Proof.
  unfold entries, selected. rewrite in_map_iff. split.
  - intros [[i line] [<- H]]. apply filter_In in H. now exists i, line.
  - intros [i [line [-> [H1 H2]]]]. exists (i, line). split; [reflexivity|].
    apply filter_In. now split.
Qed.

(** A numbered line of the file has its entry among the printed ones exactly
    when it satisfies the condition of the loop. *)
Lemma In_entries_iff (cond : str -> bool) (lines : list str) (i : N) (line : str) :
  In (i, line) (enumerate lines 1) ->
  (In (fstring i line) (entries cond lines) <-> cond line = true).
Proof.
  intros Hin. rewrite entries_spec. split.
  - intros [j [l' [E [Hj Hc]]]].
    pose proof (fstring_number_inj _ _ _ _ E) as <-.
    now rewrite (enumerate_functional _ _ _ _ _ Hin Hj).
  - intros Hc. now exists i, line.
Qed.

Lemma entries_no_LF (cond : str -> bool) (lines : list str) :
  Forall file_line lines -> Forall (fun e => ~ In LF e) (entries cond lines).
Proof.
  intros Hl. apply Forall_forall. intros e He.
  apply entries_spec in He. destruct He as [i [line [-> [Hin _]]]].
  apply fstring_no_LF. rewrite Forall_forall in Hl.
  eapply Hl, enumerate_snd, Hin.
Qed.

Lemma entries_not_banner (cond : str -> bool) (lines : list str) :
  Forall (fun e => is_banner e = false) (entries cond lines).
Proof.
  apply Forall_forall. intros e He.
  apply entries_spec in He. now destruct He as [i [line [-> _]]].
Qed.

Lemma linenos_entries (cond : str -> bool) (lines : list str) (tail : list str) :
  linenos (entries cond lines ++ tail)
  = map fst (selected cond lines) ++ linenos tail.
Proof.
  unfold entries, linenos.
  induction (selected cond lines) as [|[i line] sel IH]; [reflexivity|].
  cbn [map app flat_map fst snd]. now rewrite lineno_fstring, IH.
Qed.

(** *** Lines of the output stream *)

Lemma lines_of_blank (s : str) : lines_of (LF :: s) = [] :: lines_of s.
Proof. reflexivity. Qed.

Lemma lines_of_line (a rest : str) :
  ~ In LF a -> lines_of (a ++ LF :: rest) = a :: lines_of rest.
Proof.
  induction a as [|c a IH]; intros Ha.
  - apply lines_of_blank.
  - cbn [app lines_of]. destruct (N.eqb_spec c LF) as [->|_].
    + exfalso. apply Ha. now left.
    + rewrite IH; [reflexivity|]. intros H. apply Ha. now right.
Qed.

Lemma lines_of_prints (es : list str) (rest : str) :
  Forall (fun e => ~ In LF e) es ->
  lines_of (flat_map (fun e => e ++ [LF]) es ++ rest) = es ++ lines_of rest.
Proof.
  induction 1 as [|e es He _ IH]; [reflexivity|].
  cbn [flat_map]. rewrite <- !app_assoc. cbn [app].
  now rewrite lines_of_line, IH.
Qed.

Lemma str_eqb_spec (a b : str) : str_eqb a b = true <-> a = b.
Proof.
  revert b; induction a as [|x a IH]; intros [|y b]; simpl;
    try (split; [discriminate | discriminate]); [tauto|].
  rewrite andb_true_iff, N.eqb_eq, IH. split.
  - now intros [-> ->].
  - intros E. injection E as -> ->. tauto.
Qed.

Lemma str_eqb_banner (l title : str) :
  is_banner l = false -> is_banner title = true -> str_eqb l title = false.
Proof.
  intros Hl Ht. destruct (str_eqb l title) eqn:E; [|reflexivity].
  apply str_eqb_spec in E. congruence.
Qed.

Lemma until_banner_all (pre : list str) :
  Forall (fun l => is_banner l = false) pre -> until_banner pre = pre.
Proof.
  induction 1 as [|l pre Hl _ IH]; [reflexivity|].
  cbn [until_banner]. now rewrite Hl, IH.
Qed.

Lemma until_banner_stop (pre : list str) (b : str) (rest : list str) :
  Forall (fun l => is_banner l = false) pre -> is_banner b = true ->
  until_banner (pre ++ b :: rest) = pre.
Proof.
  intros Hpre Hb. induction Hpre as [|l pre Hl _ IH]; cbn [app until_banner].
  - now rewrite Hb.
  - now rewrite Hl, IH.
Qed.

Lemma until_banner_gap (pre : list str) (b : str) (rest : list str) :
  Forall (fun l => is_banner l = false) pre -> is_banner b = true ->
  until_banner (pre ++ [] :: b :: rest) = pre ++ [[]].
Proof.
  intros Hpre Hb.
  change (pre ++ [] :: b :: rest) with (pre ++ [[]] ++ b :: rest).
  rewrite app_assoc. apply until_banner_stop; [|exact Hb].
  apply Forall_app. split; [exact Hpre | now constructor].
Qed.

Lemma section_here (title : str) (rest : list str) :
  section title (title :: rest) = until_banner rest.
Proof.
  cbn [section]. now rewrite (proj2 (str_eqb_spec title title) eq_refl).
Qed.

Lemma section_next (l title : str) (rest : list str) :
  str_eqb l title = false -> section title (l :: rest) = section title rest.
Proof. intros H. cbn [section]. now rewrite H. Qed.

Lemma section_skip (pre : list str) (title : str) (rest : list str) :
  Forall (fun l => is_banner l = false) pre -> is_banner title = true ->
  section title (pre ++ rest) = section title rest.
Proof.
  intros Hpre Ht. induction Hpre as [|l pre Hl _ IH]; [reflexivity|].
  cbn [app]. now rewrite section_next, IH by now apply str_eqb_banner.
Qed.

(** *** The shape of a complete scan *)

Lemma titles_no_LF :
  ~ In LF title_imports /\ ~ In LF title_mounting /\ ~ In LF title_files.
Proof. repeat split; now apply no_LF_by_forallb. Qed.

Section Scan.

Variable lines : list str.

(** The stream a scan writes: each banner, then the entries of its loop,
    every one followed by a newline. *)
Lemma scan_stream :
  scan lines []
  = title_imports
    ++ LF :: flat_map (fun e => e ++ [LF]) (entries is_route_import lines)
    ++ LF :: title_mounting
    ++ LF :: flat_map (fun e => e ++ [LF]) (entries is_route_mount lines)
    ++ LF :: title_files
    ++ LF :: flat_map (fun e => e ++ [LF]) (entries is_route_file lines) ++ [].
Proof.
  unfold scan, print. rewrite !for_lines_app.
  cbn [app]. rewrite app_nil_r. now rewrite <- !app_assoc.
Qed.

Hypothesis lines_ok : Forall file_line lines.

(** The same, line by line. *)
Lemma scan_lines :
  lines_of (scan lines [])
  = title_imports :: entries is_route_import lines
    ++ [] :: title_mounting :: entries is_route_mount lines
    ++ [] :: title_files :: entries is_route_file lines.
Proof.
  destruct titles_no_LF as [T1 [T2 T3]].
  rewrite scan_stream.
  rewrite lines_of_line by exact T1.
  rewrite lines_of_prints by now apply entries_no_LF.
  rewrite lines_of_blank, lines_of_line by exact T2.
  rewrite lines_of_prints by now apply entries_no_LF.
  rewrite lines_of_blank, lines_of_line by exact T3.
  rewrite lines_of_prints by now apply entries_no_LF.
  now rewrite app_nil_r.
Qed.

Lemma scan_banners :
  banners (lines_of (scan lines []))
  = [title_imports; title_mounting; title_files].
Proof.
  assert (G : forall cond rest,
             banners (entries cond lines ++ rest) = banners rest).
  { intros cond rest. unfold banners. rewrite filter_app.
    replace (filter is_banner (entries cond lines)) with (@nil str);
      [reflexivity|].
    pose proof (entries_not_banner cond lines) as H.
    induction H as [|e es He _ IH]; [reflexivity|].
    cbn [filter]. now rewrite He. }
  rewrite scan_lines.
  change (banners (?a :: ?r)) with (if is_banner a then a :: banners r else banners r).
  change (is_banner title_imports) with true. cbv iota. rewrite G.
  change (banners ([] :: title_mounting :: ?r)) with (title_mounting :: banners r).
  rewrite G.
  change (banners ([] :: title_files :: ?r)) with (title_files :: banners r).
  rewrite <- (app_nil_r (entries is_route_file lines)), G. reflexivity.
Qed.

Lemma scan_section_imports :
  section title_imports (lines_of (scan lines []))
  = entries is_route_import lines ++ [[]].
Proof.
  rewrite scan_lines, section_here.
  apply until_banner_gap; [apply entries_not_banner | reflexivity].
Qed.

Lemma scan_section_mounting :
  section title_mounting (lines_of (scan lines []))
  = entries is_route_mount lines ++ [[]].
Proof.
  rewrite scan_lines, section_next by reflexivity.
  rewrite section_skip by (apply entries_not_banner || reflexivity).
  rewrite section_next, section_here by reflexivity.
  apply until_banner_gap; [apply entries_not_banner | reflexivity].
Qed.

Lemma scan_section_files :
  section title_files (lines_of (scan lines []))
  = entries is_route_file lines.
Proof.
  rewrite scan_lines, section_next by reflexivity.
  rewrite section_skip by (apply entries_not_banner || reflexivity).
  rewrite !section_next by reflexivity.
  rewrite section_skip by (apply entries_not_banner || reflexivity).
  rewrite section_next, section_here by reflexivity.
  apply until_banner_all, entries_not_banner.
Qed.

End Scan.

(** *** Sections of a run *)

Lemma reported_entries (cond : str -> bool) (lines : list str) (tail : list str) :
  reported (entries cond lines ++ tail) = entries cond lines ++ reported tail.
Proof.
  unfold reported. rewrite filter_app. f_equal.
  apply forallb_filter_id, forallb_forall. intros e He.
  apply entries_spec in He. now destruct He as [i [line [-> _]]].
Qed.

Lemma main_readable (w : world) (decoded : str) :
  server_js w = Readable decoded ->
  main w = {| stdout := scan (readlines decoded) []; status := 0 |}.
Proof. intros H. unfold main. now rewrite H. Qed.

Lemma main_sections (w : world) (decoded : str) :
  server_js w = Readable decoded ->
  section_imports (main w) = entries is_route_import (readlines decoded)
  /\ section_mounting (main w) = entries is_route_mount (readlines decoded)
  /\ section_files (main w) = entries is_route_file (readlines decoded).
Proof.
  intros H. unfold section_imports, section_mounting, section_files.
  rewrite (main_readable w decoded H). cbn [stdout].
  pose proof (readlines_file_line decoded) as Hl.
  rewrite scan_section_imports, scan_section_mounting, scan_section_files
    by exact Hl.
  rewrite <- (app_nil_r (entries is_route_file _)) at 1.
  rewrite !reported_entries. cbn [reported filter str_eqb negb].
  now rewrite !app_nil_r.
Qed.

(** *** The three conditions, as occurrences *)

Lemma is_route_import_spec (line : str) :
  is_route_import line = true <->
  occurs (lit "require") line
  /\ (occurs (lit "routes/") line \/ occurs (lit "Routes") line).
Proof.
  unfold is_route_import.
  now rewrite andb_true_iff, orb_true_iff, !str_in_spec.
Qed.

Lemma is_route_mount_spec (line : str) :
  is_route_mount line = true <->
  occurs (lit "app.use") line
  /\ (occurs (lit "/api") line \/ occurs (lit "Routes") line).
Proof.
  unfold is_route_mount.
  now rewrite andb_true_iff, orb_true_iff, !str_in_spec.
Qed.

Lemma is_route_file_spec (line : str) :
  is_route_file line = true <->
  occurs (lit "ai-chat") line \/ occurs (lit "document-analyzer") line
  \/ occurs (lit "geocoding") line.
Proof.
  unfold is_route_file, any, route_files. cbn [existsb].
  rewrite orb_false_r, !orb_true_iff, !str_in_spec. tauto.
Qed.

(** *** A file with a single selected line *)

Lemma selected_none (cond : str -> bool) (items : list (N * str)) :
  (forall i l, In (i, l) items -> cond l = false) ->
  filter (fun il => cond (snd il)) items = [].
Proof.
  induction items as [|[i l] items IH]; intros H; [reflexivity|].
  cbn [filter snd]. rewrite (H i l) by now left.
  apply IH. intros j l' Hj. apply (H j l'). now right.
Qed.

Lemma selected_single (cond : str -> bool) (lines : list str) (start k : N) (x : str) :
  In (k, x) (enumerate lines start) ->
  cond x = true ->
  (forall i l, In (i, l) (enumerate lines start) -> i <> k -> cond l = false) ->
  filter (fun il => cond (snd il)) (enumerate lines start) = [(k, x)].
Proof.
  revert start; induction lines as [|z lines IH]; intros start Hin Hx Hothers.
  - destruct Hin.
  - cbn [enumerate] in *. cbn [filter snd]. destruct Hin as [E | Hin].
    + injection E as -> ->. rewrite Hx. f_equal.
      apply selected_none. intros i l Hi. apply (Hothers i l); [now right|].
      apply enumerate_ge in Hi. lia.
    + rewrite (Hothers start z) by
        (now left || (apply enumerate_ge in Hin; lia)).
      apply IH; [exact Hin | exact Hx |].
      intros i l Hi. apply Hothers. now right.
Qed.

End ScriptFacts.

(** ** Properties of the scanner *)
Module Properties.
Import Py SearchRoutes Report Samples PyFacts ScriptFacts.

(** C1: whenever [server.js] is read, a line [L] of the file, at its number
    [i], has its entry [Line i: L.strip()] in the section under the
    route-imports banner if and only if [L] contains [require] and also
    contains [routes/] or [Routes]. *)
Theorem pass1_reports_iff (w : world) (decoded : str) (i : N) (L : str) :
  server_js w = Readable decoded ->
  line_at decoded i L ->
  (In (fstring i L) (section_imports (main w)) <->
   occurs (lit "require") L
   /\ (occurs (lit "routes/") L \/ occurs (lit "Routes") L)).
Proof.
  intros Hw Hl. destruct (main_sections w decoded Hw) as [-> _].
  rewrite <- is_route_import_spec. now apply In_entries_iff.
Qed.

Lemma pass1_reports_iff_witness :
  server_js server_world = Readable server_text
  /\ line_at server_text 2 import_line
  /\ (In (fstring 2 import_line) (section_imports (main server_world)) <->
      occurs (lit "require") import_line
      /\ (occurs (lit "routes/") import_line \/ occurs (lit "Routes") import_line)).
Proof.
  assert (H1 : server_js server_world = Readable server_text) by reflexivity.
  assert (H2 : line_at server_text 2 import_line) by (unfold line_at; in_computed_list).
  exact (conj H1 (conj H2 (pass1_reports_iff server_world server_text 2 import_line H1 H2))).
Defined.

(** C2: whenever [server.js] is read, a line [L] of the file, at its number
    [i], has its entry in the section under the route-mounting banner if and
    only if [L] contains [app.use] and also contains [/api] or [Routes]. *)
Theorem pass2_reports_iff (w : world) (decoded : str) (i : N) (L : str) :
  server_js w = Readable decoded ->
  line_at decoded i L ->
  (In (fstring i L) (section_mounting (main w)) <->
   occurs (lit "app.use") L
   /\ (occurs (lit "/api") L \/ occurs (lit "Routes") L)).
Proof.
  intros Hw Hl. destruct (main_sections w decoded Hw) as [_ [-> _]].
  rewrite <- is_route_mount_spec. now apply In_entries_iff.
Qed.

Lemma pass2_reports_iff_witness :
  server_js server_world = Readable server_text
  /\ line_at server_text 3 mount_line
  /\ (In (fstring 3 mount_line) (section_mounting (main server_world)) <->
      occurs (lit "app.use") mount_line
      /\ (occurs (lit "/api") mount_line \/ occurs (lit "Routes") mount_line)).
Proof.
  assert (H1 : server_js server_world = Readable server_text) by reflexivity.
  assert (H2 : line_at server_text 3 mount_line) by (unfold line_at; in_computed_list).
  exact (conj H1 (conj H2 (pass2_reports_iff server_world server_text 3 mount_line H1 H2))).
Defined.

(** C3: whenever [server.js] is read, a line [L] of the file, at its number
    [i], has its entry in the section under the route-files banner if and
    only if [L] contains one of [ai-chat], [document-analyzer], [geocoding];
    an occurrence is a block of equal code points, so the match is exact and
    case-sensitive. *)
Theorem pass3_reports_iff (w : world) (decoded : str) (i : N) (L : str) :
  server_js w = Readable decoded ->
  line_at decoded i L ->
  (In (fstring i L) (section_files (main w)) <->
   occurs (lit "ai-chat") L \/ occurs (lit "document-analyzer") L
   \/ occurs (lit "geocoding") L).
Proof.
  intros Hw Hl. destruct (main_sections w decoded Hw) as [_ [_ ->]].
  rewrite <- is_route_file_spec. now apply In_entries_iff.
Qed.

Lemma pass3_reports_iff_witness :
  server_js server_world = Readable server_text
  /\ line_at server_text 4 comment_line
  /\ (In (fstring 4 comment_line) (section_files (main server_world)) <->
      occurs (lit "ai-chat") comment_line \/ occurs (lit "document-analyzer") comment_line
      \/ occurs (lit "geocoding") comment_line).
Proof.
  assert (H1 : server_js server_world = Readable server_text) by reflexivity.
  assert (H2 : line_at server_text 4 comment_line) by (unfold line_at; in_computed_list).
  exact (conj H1 (conj H2 (pass3_reports_iff server_world server_text 4 comment_line H1 H2))).
Defined.

(** Upper case does not match: the third loop skips a line that spells a
    route name in capitals. *)
Example route_names_are_case_sensitive :
  is_route_file (lit "// GEOCODING and AI-Chat") = false
  /\ is_route_file (lit "// geocoding") = true.
Proof. split; reflexivity. Qed.

(** C4: whenever [server.js] is read, the banner lines of the output are
    exactly the three fixed titles, in their fixed order, whatever the file
    holds; for a file of zero lines the output is the three banners with
    their separating blank lines, no section reports anything, and the exit
    status is 0. *)
Theorem three_banners (w : world) (decoded : str) :
  server_js w = Readable decoded ->
  banners (lines_of (stdout (main w)))
  = [lit "=== Route imports (require statements) ===";
     lit "=== Route mounting (app.use statements) ===";
     lit "=== Specific route files mentioned ==="]
  /\ (readlines decoded = [] ->
      lines_of (stdout (main w))
      = [lit "=== Route imports (require statements) ==="; [];
         lit "=== Route mounting (app.use statements) ==="; [];
         lit "=== Specific route files mentioned ==="]
      /\ section_imports (main w) = []
      /\ section_mounting (main w) = []
      /\ section_files (main w) = []
      /\ status (main w) = 0).
Proof.
  intros Hw. split.
  - rewrite (main_readable w decoded Hw). cbn [stdout].
    apply scan_banners, readlines_file_line.
  - intros Hempty.
    destruct (main_sections w decoded Hw) as [-> [-> ->]].
    rewrite (main_readable w decoded Hw), Hempty. cbn [stdout status].
    repeat split; reflexivity.
Qed.

Lemma three_banners_witness :
  server_js empty_world = Readable []
  /\ readlines [] = []
  /\ length (banners (lines_of (stdout (main empty_world)))) = 3%nat
  /\ section_imports (main empty_world) = []
  /\ status (main empty_world) = 0.
Proof.
  destruct (three_banners empty_world [] eq_refl) as [Hb He].
  destruct (He eq_refl) as [_ [H1 [_ [_ H0]]]].
  refine (conj eq_refl (conj eq_refl (conj _ (conj H1 H0)))).
  now rewrite Hb.
Defined.

(** C5: whenever [server.js] is read, the line numbers printed in each of
    the three sections are strictly increasing. *)
Theorem section_numbers_increasing (w : world) (decoded : str) :
  server_js w = Readable decoded ->
  StronglySorted N.lt (linenos (section_imports (main w)))
  /\ StronglySorted N.lt (linenos (section_mounting (main w)))
  /\ StronglySorted N.lt (linenos (section_files (main w))).
Proof.
  intros Hw. destruct (main_sections w decoded Hw) as [-> [-> ->]].
  assert (G : forall cond lines,
             StronglySorted N.lt (linenos (entries cond lines))).
  { intros cond lines. rewrite <- (app_nil_r (entries cond lines)).
    rewrite linenos_entries. cbn [linenos flat_map]. rewrite app_nil_r.
    apply selected_sorted. }
  repeat split; apply G.
Qed.

Lemma section_numbers_increasing_witness :
  server_js server_world = Readable server_text
  /\ StronglySorted N.lt (linenos (section_imports (main server_world)))
  /\ StronglySorted N.lt (linenos (section_mounting (main server_world)))
  /\ StronglySorted N.lt (linenos (section_files (main server_world))).
Proof.
  exact (conj eq_refl (section_numbers_increasing server_world server_text eq_refl)).
Defined.

(** The numbers read back from the sample report. *)
Example sample_section_numbers :
  linenos (section_imports (main server_world)) = [2]
  /\ linenos (section_mounting (main server_world)) = [3]
  /\ linenos (section_files (main server_world)) = [2; 4].
Proof. repeat split; vm_compute; reflexivity. Qed.

(** C8: let line 5 of [server.js] read
    [const aiChatRoutes = require('./routes/ai-chat');] once trimmed, and let
    no other line satisfy any of the three conditions.  Then the section of
    route imports and the section of route files each report exactly
    [Line 5: const aiChatRoutes = require('./routes/ai-chat');], and the
    section of route mounting reports nothing. *)
Theorem ai_chat_scenario (w : world) (decoded : str) (L : str) :
  server_js w = Readable decoded ->
  line_at decoded 5 L ->
  strip L = lit "const aiChatRoutes = require('./routes/ai-chat');" ->
  (forall i l, line_at decoded i l -> i <> 5 ->
     is_route_import l = false /\ is_route_mount l = false
     /\ is_route_file l = false) ->
  section_imports (main w)
  = [lit "Line 5: const aiChatRoutes = require('./routes/ai-chat');"]
  /\ section_mounting (main w) = []
  /\ section_files (main w)
     = [lit "Line 5: const aiChatRoutes = require('./routes/ai-chat');"].
Proof.
  intros Hw H5 Hstrip Hothers.
  destruct (main_sections w decoded Hw) as [-> [-> ->]].
  destruct (solid_of_no_space (lit "require") eq_refl) as [R1 R2].
  destruct (solid_of_no_space (lit "routes/") eq_refl) as [S1 S2].
  destruct (solid_of_no_space (lit "app.use") eq_refl) as [U1 U2].
  destruct (solid_of_no_space (lit "ai-chat") eq_refl) as [A1 A2].
  assert (E : fstring 5 L
              = lit "Line 5: const aiChatRoutes = require('./routes/ai-chat');").
  { unfold fstring. now rewrite Hstrip. }
  assert (C1 : is_route_import L = true).
  { unfold is_route_import.
    rewrite <- (str_in_strip (lit "require")), <- (str_in_strip (lit "routes/"))
      by assumption.
    now rewrite Hstrip. }
  assert (C2 : is_route_mount L = false).
  { unfold is_route_mount.
    rewrite <- (str_in_strip (lit "app.use")) by assumption.
    now rewrite Hstrip. }
  assert (C3 : is_route_file L = true).
  { unfold is_route_file, any, route_files. cbn [existsb].
    rewrite <- (str_in_strip (lit "ai-chat")) by assumption.
    now rewrite Hstrip. }
  unfold entries, selected. repeat split.
  - rewrite (selected_single is_route_import _ 1 5 L H5 C1).
    + cbn [map fst snd]. now rewrite E.
    + intros i l Hi Hne. now destruct (Hothers i l Hi Hne).
  - rewrite selected_none; [reflexivity|].
    intros i l Hi. destruct (N.eq_dec i 5) as [->|Hne].
    + now rewrite (enumerate_functional _ _ _ _ _ Hi H5).
    + now destruct (Hothers i l Hi Hne) as [_ [? _]].
  - rewrite (selected_single is_route_file _ 1 5 L H5 C3).
    + cbn [map fst snd]. now rewrite E.
    + intros i l Hi Hne. now destruct (Hothers i l Hi Hne) as [_ [_ ?]].
Qed.

Lemma ai_chat_scenario_witness :
  section_imports (main ai_chat_world)
  = [lit "Line 5: const aiChatRoutes = require('./routes/ai-chat');"]
  /\ section_mounting (main ai_chat_world) = []
  /\ section_files (main ai_chat_world)
     = [lit "Line 5: const aiChatRoutes = require('./routes/ai-chat');"].
Proof.
  apply (ai_chat_scenario ai_chat_world ai_chat_text
           (lit "  const aiChatRoutes = require('./routes/ai-chat');" ++ [LF])).
  - reflexivity.
  - unfold line_at. in_computed_list.
  - reflexivity.
  - intros i l Hi Hne. unfold line_at in Hi. vm_compute in Hi.
    repeat (destruct Hi as [Hi | Hi];
            [injection Hi as <- <-;
             first [ now contradiction Hne | repeat split; reflexivity ] |]).
    destruct Hi.
Defined.

(** C10: for every line, each of the three conditions gives the same answer
    on the raw text and on the trimmed text; the reason is that none of the
    eight fixed patterns contains a white-space character, so trimming
    neither removes nor creates an occurrence of any of them. *)
Theorem strip_preserves_matching (L : str) :
  Forall (fun pat => forallb (fun c => negb (isspace c)) pat = true
                     /\ str_in pat (strip L) = str_in pat L)
         search_patterns
  /\ is_route_import (strip L) = is_route_import L
  /\ is_route_mount (strip L) = is_route_mount L
  /\ is_route_file (strip L) = is_route_file L.
Proof.
  assert (G : forall pat, forallb (fun c => negb (isspace c)) pat = true ->
                          str_in pat (strip L) = str_in pat L).
  { intros pat Hp. destruct (solid_of_no_space pat Hp). now apply str_in_strip. }
  split.
  - unfold search_patterns.
    repeat (constructor; [split; [reflexivity | now apply G] |]). constructor.
  - unfold is_route_import, is_route_mount, is_route_file, any, route_files.
    cbn [existsb]. now rewrite !G.
Qed.

End Properties.

(** ** More facts: reading, trimming, numbering *)
Module MoreFacts.
Import Py SearchRoutes Report Variants PyFacts ScriptFacts.

(** *** Reading *)

Lemma split_keepends_concat (s : str) : concat (split_keepends s) = s.
Proof.
  induction s as [|c s IH]; [reflexivity|].
  cbn [split_keepends]. destruct (c =? LF).
  - cbn [concat app]. now rewrite IH.
  - destruct (split_keepends s) as [|l ls]; cbn [concat app] in *.
    + now rewrite <- IH.
    + now rewrite IH.
Qed.

Lemma split_keepends_nonempty (s : str) :
  Forall (fun l => l <> []) (split_keepends s).
Proof.
  induction s as [|c s IH]; cbn [split_keepends]; [constructor|].
  destruct (c =? LF); [constructor; [discriminate | exact IH] |].
  destruct (split_keepends s) as [|l ls].
  - constructor; [discriminate | constructor].
  - inversion IH; subst. constructor; [discriminate | assumption].
Qed.

Lemma universal_newlines_no_CR_id (s : str) :
  ~ In CR s -> universal_newlines false s = s.
Proof.
  induction s as [|c s IH]; intros H; [reflexivity|].
  cbn [universal_newlines]. destruct (N.eqb_spec c CR) as [->|_].
  - exfalso. apply H. now left.
  - rewrite andb_false_r, IH; [reflexivity|]. intros G. apply H. now right.
Qed.

Lemma universal_newlines_no_CR (b : bool) (s : str) :
  ~ In CR (universal_newlines b s).
Proof.
  revert b; induction s as [|c s IH]; intros b; cbn [universal_newlines]; [tauto|].
  destruct (N.eqb_spec c CR) as [->|Hc].
  - intros [E | H]; [discriminate | now apply IH in H].
  - destruct ((c =? LF) && b); [apply IH|].
    intros [E | H]; [congruence | now apply IH in H].
Qed.

Lemma universal_newlines_crlf (s : str) :
  ~ In CR s -> universal_newlines false (to_crlf s) = s.
Proof.
  induction s as [|c s IH]; intros H; [reflexivity|].
  assert (Hs : ~ In CR s) by (intros G; apply H; now right).
  assert (Hc : c <> CR) by (intros ->; apply H; now left).
  cbn [to_crlf]. destruct (N.eqb_spec c LF) as [->|Hl].
  - cbn. now rewrite IH.
  - cbn [universal_newlines]. destruct (N.eqb_spec c CR); [contradiction|].
    now rewrite andb_false_r, IH.
Qed.

(** After a text that ends with a newline, reading starts afresh. *)
Lemma universal_newlines_after_LF (b : bool) (x more : str) :
  universal_newlines b (x ++ LF :: more)
  = universal_newlines b (x ++ [LF]) ++ universal_newlines false more.
Proof.
  revert b; induction x as [|c x IH]; intros b.
  - cbn. now destruct b.
  - cbn [app universal_newlines]. destruct (c =? CR).
    + now rewrite IH.
    + destruct ((c =? LF) && b); now rewrite IH.
Qed.

Lemma universal_newlines_ends_LF (b : bool) (x : str) :
  exists u, (if b then [LF] else []) ++ universal_newlines b (x ++ [LF])
            = u ++ [LF].
Proof.
  revert b; induction x as [|c x IH]; intros b.
  - destruct b; now exists [].
  - cbn [app universal_newlines]. destruct (c =? CR).
    + destruct (IH true) as [u Hu]. cbn [app] in Hu. rewrite Hu.
      destruct b; [exists (LF :: u) | exists u]; reflexivity.
    + destruct (c =? LF); cbn [andb]; destruct b; cbn [app].
      * destruct (IH false) as [u Hu]. cbn [app] in Hu. rewrite Hu.
        now exists (LF :: u).
      * destruct (IH false) as [u Hu]. cbn [app] in Hu. rewrite Hu.
        now exists (c :: u).
      * destruct (IH false) as [u Hu]. cbn [app] in Hu. rewrite Hu.
        now exists (LF :: c :: u).
      * destruct (IH false) as [u Hu]. cbn [app] in Hu. rewrite Hu.
        now exists (c :: u).
Qed.

Lemma split_keepends_after_LF (u v : str) :
  split_keepends ((u ++ [LF]) ++ v)
  = split_keepends (u ++ [LF]) ++ split_keepends v.
Proof.
  induction u as [|c u IH]; [reflexivity|].
  cbn [app split_keepends]. destruct (c =? LF).
  - cbn [app]. now rewrite <- IH.
  - cbn [app] in IH. rewrite IH.
    destruct (split_keepends (u ++ [LF])) as [|l ls] eqn:E; [|reflexivity].
    pose proof (split_keepends_concat (u ++ [LF])) as G. rewrite E in G.
    now destruct u.
Qed.

Lemma readlines_after_LF (x more : str) :
  readlines (x ++ LF :: more) = readlines (x ++ [LF]) ++ readlines more.
Proof.
  unfold readlines. rewrite universal_newlines_after_LF.
  destruct (universal_newlines_ends_LF false x) as [u Hu].
  cbn [app] in Hu. rewrite Hu. apply split_keepends_after_LF.
Qed.

Lemma universal_newlines_plain_char (b : bool) (x : str) (c : char) (y : str) :
  c <> CR -> c <> LF ->
  universal_newlines b (x ++ c :: y)
  = universal_newlines b x ++ c :: universal_newlines false y.
Proof.
  intros Hcr Hlf. revert b; induction x as [|d x IH]; intros b.
  - cbn [app universal_newlines].
    destruct (N.eqb_spec c CR); [contradiction|].
    destruct (N.eqb_spec c LF); [contradiction | reflexivity].
  - cbn [app universal_newlines]. destruct (d =? CR).
    + now rewrite IH.
    + destruct ((d =? LF) && b); now rewrite IH.
Qed.

Lemma split_keepends_last_line (u : str) (c : char) :
  c <> LF ->
  exists ls l, split_keepends (u ++ [c]) = ls ++ [l]
               /\ split_keepends (u ++ [c; LF]) = ls ++ [l ++ [LF]].
Proof.
  intros Hc. induction u as [|d u IH].
  - exists [], [c]. cbn. destruct (N.eqb_spec c LF); [contradiction|].
    now split.
  - destruct IH as [ls [l [E1 E2]]]. cbn [app split_keepends].
    rewrite E1, E2. destruct (d =? LF).
    + exists ([d] :: ls), l. now split.
    + destruct ls as [|l0 ls]; cbn [app].
      * exists [], (d :: l). now split.
      * exists ((d :: l0) :: ls), l. now split.
Qed.

(** A file without final newline and the same file with one: the same lines,
    but for the terminator of the last. *)
Lemma readlines_final_newline (x : str) (c : char) :
  c <> CR -> c <> LF ->
  exists ls l, readlines (x ++ [c]) = ls ++ [l]
               /\ readlines (x ++ [c; LF]) = ls ++ [l ++ [LF]].
Proof.
  intros Hcr Hlf. unfold readlines.
  rewrite !universal_newlines_plain_char by assumption. cbn.
  apply split_keepends_last_line, Hlf.
Qed.

(** *** Trimming *)

Lemma lstrip_head (s : str) (c : char) (rest : str) :
  lstrip s = c :: rest -> isspace c = false.
Proof.
  induction s as [|a s IH]; cbn [lstrip]; [discriminate|].
  destruct (isspace a) eqn:Ha; [exact IH|]. intros E. now injection E as <- _.
Qed.

Lemma lstrip_fixed (s : str) :
  (forall c rest, s = c :: rest -> isspace c = false) -> lstrip s = s.
Proof.
  destruct s as [|a s]; [reflexivity|]. intros H. cbn [lstrip].
  now rewrite (H a s eq_refl).
Qed.

Lemma rstrip_last (s : str) (c : char) (pre : str) :
  rstrip s = pre ++ [c] -> isspace c = false.
Proof.
  unfold rstrip. intros E. apply (f_equal (@rev char)) in E.
  rewrite rev_involutive, rev_app_distr in E. cbn in E.
  now apply lstrip_head in E.
Qed.

Lemma rstrip_fixed (s : str) :
  (forall c pre, s = pre ++ [c] -> isspace c = false) -> rstrip s = s.
Proof.
  intros H. unfold rstrip. rewrite lstrip_fixed; [apply rev_involutive|].
  intros c rest E. apply (H c (rev rest)).
  rewrite <- (rev_involutive s), E. reflexivity.
Qed.

Lemma lstrip_suffix (s : str) : exists ws, s = ws ++ lstrip s.
Proof.
  induction s as [|a s [ws IH]]; [now exists []|].
  cbn [lstrip]. destruct (isspace a); [|now exists []].
  exists (a :: ws). cbn. now rewrite <- IH.
Qed.

Lemma rstrip_prefix (s : str) : exists ws, s = rstrip s ++ ws.
Proof.
  unfold rstrip. destruct (lstrip_suffix (rev s)) as [ws E].
  exists (rev ws). rewrite <- rev_app_distr, <- E. now rewrite rev_involutive.
Qed.

Lemma strip_head (s : str) (c : char) (rest : str) :
  strip s = c :: rest -> isspace c = false.
Proof.
  unfold strip. intros E. destruct (rstrip_prefix (lstrip s)) as [ws G].
  rewrite E in G. cbn in G. now apply lstrip_head in G.
Qed.

Lemma strip_last (s : str) (c : char) (pre : str) :
  strip s = pre ++ [c] -> isspace c = false.
Proof. apply rstrip_last. Qed.

Lemma strip_fixed (s : str) : strip (strip s) = strip s.
Proof.
  unfold strip at 1. rewrite lstrip_fixed by apply strip_head.
  apply rstrip_fixed, strip_last.
Qed.

(** The three conditions look through surrounding white space. *)
Lemma conditions_strip (cond : str -> bool) (line : str) :
  In cond conditions -> cond (strip line) = cond line.
Proof.
  assert (G : forall pat, forallb (fun c => negb (isspace c)) pat = true ->
                          str_in pat (strip line) = str_in pat line).
  { intros pat Hp. destruct (solid_of_no_space pat Hp). now apply str_in_strip. }
  intros [<- | [<- | [<- | []]]];
    unfold is_route_import, is_route_mount, is_route_file, any, route_files;
    cbn [existsb]; now rewrite !G.
Qed.

Lemma conditions_same_trimmed (cond : str -> bool) (a b : str) :
  In cond conditions -> same_trimmed a b -> cond a = cond b.
Proof.
  intros Hc E. rewrite <- (conditions_strip cond a), <- (conditions_strip cond b)
    by assumption. now rewrite E.
Qed.

(** *** Numbering *)

Lemma enumerate_nth {A} (l : list A) (k i : N) (x : A) :
  In (i, x) (enumerate l k) <->
  k <= i /\ nth_error l (N.to_nat (i - k)) = Some x.
Proof.
  revert k; induction l as [|y l IH]; intros k; cbn [enumerate In].
  - split; [tauto | intros [_ H]]. now destruct (N.to_nat (i - k)).
  - rewrite IH. split.
    + intros [E | [Hle Hn]].
      * injection E as <- <-. split; [lia|]. now rewrite N.sub_diag.
      * split; [lia|].
        replace (N.to_nat (i - k)) with (S (N.to_nat (i - N.succ k))) by lia.
        exact Hn.
    + intros [Hle Hn]. destruct (N.eq_dec i k) as [->|Hne].
      * left. rewrite N.sub_diag in Hn. cbn in Hn. congruence.
      * right. split; [lia|].
        replace (N.to_nat (i - k)) with (S (N.to_nat (i - N.succ k))) in Hn by lia.
        exact Hn.
Qed.

Lemma enumerate_app {A} (l1 l2 : list A) (k : N) :
  enumerate (l1 ++ l2) k
  = enumerate l1 k ++ enumerate l2 (k + N.of_nat (length l1)).
Proof.
  revert k; induction l1 as [|x l1 IH]; intros k; cbn [app enumerate length].
  - now rewrite N.add_0_r.
  - rewrite IH. do 3 f_equal. lia.
Qed.

Lemma entries_app (cond : str -> bool) (l1 l2 : list str) :
  exists more, entries cond (l1 ++ l2) = entries cond l1 ++ more.
Proof.
  unfold entries, selected. rewrite enumerate_app, filter_app, map_app.
  eexists. reflexivity.
Qed.

Lemma entries_same_trimmed (cond : str -> bool) (l1 l2 : list str) :
  In cond conditions -> Forall2 same_trimmed l1 l2 ->
  entries cond l1 = entries cond l2.
Proof.
  intros Hc H. unfold entries, selected. generalize 1.
  induction H as [|a b l1 l2 Hab _ IH]; intros k; [reflexivity|].
  cbn [enumerate filter snd].
  rewrite (conditions_same_trimmed cond a b Hc Hab).
  destruct (cond b); cbn [map fst snd]; rewrite IH; [|reflexivity].
  unfold fstring. now rewrite Hab.
Qed.

Lemma scan_same_entries (l1 l2 : list str) :
  (forall cond, In cond conditions -> entries cond l1 = entries cond l2) ->
  scan l1 [] = scan l2 [].
Proof.
  intros H. rewrite !scan_stream.
  rewrite (H is_route_import), (H is_route_mount), (H is_route_file);
    [reflexivity | | |]; cbn; tauto.
Qed.

Lemma main_same_trimmed (w1 w2 : world) (d1 d2 : str) :
  server_js w1 = Readable d1 ->
  server_js w2 = Readable d2 ->
  Forall2 same_trimmed (readlines d1) (readlines d2) ->
  main w1 = main w2.
Proof.
  intros H1 H2 Hs. rewrite (main_readable w1 d1 H1), (main_readable w2 d2 H2).
  f_equal. apply scan_same_entries. intros cond Hc.
  now apply entries_same_trimmed.
Qed.

Lemma sorted_NoDup (l : list N) : StronglySorted N.lt l -> NoDup l.
Proof.
  induction 1 as [|a l _ IH Ha]; constructor; [|exact IH].
  intros Hin. rewrite Forall_forall in Ha. specialize (Ha a Hin). lia.
Qed.

Lemma entries_NoDup (cond : str -> bool) (lines : list str) :
  NoDup (entries cond lines).
Proof.
  apply (NoDup_map_inv (fun e => match lineno e with Some n => n | None => 0 end)).
  replace (map _ (entries cond lines)) with (map fst (selected cond lines)).
  - apply sorted_NoDup, selected_sorted.
  - unfold entries. rewrite map_map. apply map_ext.
    intros [i l]. cbn [fst snd]. now rewrite lineno_fstring.
Qed.

Lemma entries_length (cond : str -> bool) (lines : list str) :
  length (entries cond lines) = length (filter cond lines).
Proof.
  unfold entries, selected. rewrite length_map. generalize 1.
  induction lines as [|l lines IH]; intros k; [reflexivity|].
  cbn [enumerate filter snd]. destruct (cond l); cbn [length]; now rewrite IH.
Qed.

(** *** Carriage returns *)

Lemma readlines_no_CR (decoded line : str) :
  In line (readlines decoded) -> ~ In CR line.
Proof.
  intros Hl Hc. apply (universal_newlines_no_CR false decoded).
  unfold readlines in Hl. rewrite <- split_keepends_concat.
  apply in_concat. now exists line.
Qed.

(** *** Each section with its condition *)

Lemma paired_sections (w : world) (decoded : str) (cond : str -> bool)
      (sec : list str) :
  server_js w = Readable decoded ->
  In (cond, sec) (combine conditions (sections_of (main w))) ->
  In cond conditions /\ sec = entries cond (readlines decoded).
Proof.
  intros Hw H. destruct (main_sections w decoded Hw) as [E1 [E2 E3]].
  cbn in H. destruct H as [H | [H | [H | []]]]; injection H as <- <-;
    (split; [cbn; tauto | assumption]).
Qed.

Lemma entries_origin (cond : str -> bool) (lines : list str) (e : str) :
  In e (entries cond lines) ->
  exists i L, 1 <= i <= N.of_nat (length lines)
              /\ nth_error lines (N.to_nat i - 1) = Some L
              /\ cond L = true /\ e = fstring i L.
Proof.
  intros He. apply entries_spec in He. destruct He as [i [L [-> [Hin Hc]]]].
  apply enumerate_nth in Hin. destruct Hin as [Hle Hn].
  replace (N.to_nat (i - 1)) with (N.to_nat i - 1)%nat in Hn by lia.
  exists i, L. repeat split; try assumption.
  assert (Hlt : (N.to_nat i - 1 < length lines)%nat).
  { apply nth_error_Some. congruence. }
  lia.
Qed.

Lemma not_In_by_forallb (c : char) (s : str) :
  forallb (fun x => negb (x =? c)) s = true -> ~ In c s.
Proof.
  intros H Hin. rewrite forallb_forall in H. specialize (H _ Hin).
  now rewrite N.eqb_refl in H.
Qed.

Lemma occurs_trans (p a b : str) : occurs p a -> occurs a b -> occurs p b.
Proof.
  intros [pre [post ->]] [pre' [post' ->]].
  exists (pre' ++ pre), (post ++ post'). now rewrite <- !app_assoc.
Qed.

End MoreFacts.

(** ** Further properties of the scanner *)
Module MoreProperties.
Import Py SearchRoutes Report Samples Variants PyFacts ScriptFacts MoreFacts.

(** X1: [readlines] loses no character: the lines it delivers, joined, are
    the text after newline translation, which is the decoded text itself when
    that holds no carriage return; and no delivered line is empty. *)
Theorem readlines_keeps_every_character (decoded : str) :
  concat (readlines decoded) = universal_newlines false decoded
  /\ (~ In CR decoded -> concat (readlines decoded) = decoded)
  /\ Forall (fun l => l <> []) (readlines decoded).
Proof.
  unfold readlines. repeat split.
  - apply split_keepends_concat.
  - intros H. now rewrite split_keepends_concat, universal_newlines_no_CR_id.
  - apply split_keepends_nonempty.
Qed.

Lemma readlines_keeps_every_character_witness :
  ~ In CR server_text /\ concat (readlines server_text) = server_text.
Proof.
  assert (H : ~ In CR server_text) by now apply not_In_by_forallb.
  exact (conj H (proj1 (proj2 (readlines_keeps_every_character server_text)) H)).
Defined.

(** X2: a file saved with Windows line ends gives the same run as the same
    text with Unix line ends. *)
Theorem crlf_file_same_report (w w' : world) (text : str) :
  ~ In CR text ->
  server_js w = Readable text ->
  server_js w' = Readable (to_crlf text) ->
  main w' = main w.
Proof.
  intros Hcr Hw Hw'.
  rewrite (main_readable w text Hw), (main_readable w' _ Hw').
  unfold readlines.
  now rewrite universal_newlines_crlf, universal_newlines_no_CR_id.
Qed.

Lemma crlf_file_same_report_witness :
  ~ In CR server_text
  /\ to_crlf server_text <> server_text
  /\ main crlf_world = main server_world.
Proof.
  assert (H : ~ In CR server_text) by now apply not_In_by_forallb.
  refine (conj H (conj _ _)).
  - intros E. apply H. rewrite <- E. vm_compute. tauto.
  - exact (crlf_file_same_report server_world crlf_world server_text H
             eq_refl eq_refl).
Defined.

(** X3: the text [line.strip()] puts after the line number starts and ends
    with a character that is no white space (or is empty), and trimming it
    again changes nothing. *)
Theorem printed_text_is_trimmed (line : str) :
  (forall c rest, strip line = c :: rest -> isspace c = false)
  /\ (forall c pre, strip line = pre ++ [c] -> isspace c = false)
  /\ strip (strip line) = strip line.
Proof.
  repeat split.
  - apply strip_head.
  - apply strip_last.
  - apply strip_fixed.
Qed.

Lemma printed_text_is_trimmed_witness :
  strip (lit "  app.use(x); " ++ [LF]) = lit "app.use(x);"
  /\ isspace 97 = false /\ isspace 59 = false.
Proof.
  refine (conj eq_refl (conj _ _)).
  - exact (proj1 (printed_text_is_trimmed (lit "  app.use(x); " ++ [LF]))
             97 (lit "pp.use(x);") eq_refl).
  - exact (proj1 (proj2 (printed_text_is_trimmed (lit "  app.use(x); " ++ [LF])))
             59 (lit "app.use(x)") eq_refl).
Defined.

(** X4: nothing else is reported: every line of a section is the entry
    [Line i: ...] of the [i]-th line of the file, counted from 1, for a line
    that satisfies the condition of that section's loop. *)
Theorem reported_lines_come_from_file (w : world) (decoded : str)
        (cond : str -> bool) (sec : list str) (e : str) :
  server_js w = Readable decoded ->
  In (cond, sec) (combine conditions (sections_of (main w))) ->
  In e sec ->
  exists i L, 1 <= i <= N.of_nat (length (readlines decoded))
              /\ nth_error (readlines decoded) (N.to_nat i - 1) = Some L
              /\ cond L = true /\ e = fstring i L.
Proof.
  intros Hw Hs He. destruct (paired_sections w decoded cond sec Hw Hs) as [_ ->].
  now apply entries_origin.
Qed.

Lemma reported_lines_come_from_file_witness :
  exists i L, 1 <= i <= N.of_nat (length (readlines server_text))
              /\ nth_error (readlines server_text) (N.to_nat i - 1) = Some L
              /\ is_route_mount L = true
              /\ lit "Line 3: app.use('/api/chat', aiChatRoutes);" = fstring i L.
Proof.
  apply (reported_lines_come_from_file server_world server_text is_route_mount
           (section_mounting (main server_world))).
  - reflexivity.
  - right. left. reflexivity.
  - vm_compute. left. reflexivity.
Defined.

(** X5: within a section no entry is printed twice, and the section has as
    many entries as the file has lines that satisfy its condition. *)
Theorem sections_without_repeats (w : world) (decoded : str)
        (cond : str -> bool) (sec : list str) :
  server_js w = Readable decoded ->
  In (cond, sec) (combine conditions (sections_of (main w))) ->
  NoDup sec /\ length sec = length (filter cond (readlines decoded)).
Proof.
  intros Hw Hs. destruct (paired_sections w decoded cond sec Hw Hs) as [_ ->].
  split; [apply entries_NoDup | apply entries_length].
Qed.

Lemma sections_without_repeats_witness :
  NoDup (section_files (main server_world))
  /\ length (section_files (main server_world))
     = length (filter is_route_file (readlines server_text)).
Proof.
  apply (sections_without_repeats server_world server_text).
  - reflexivity.
  - right. right. left. reflexivity.
Defined.

(** X6: a line that is empty once trimmed is reported in no section. *)
Theorem blank_lines_never_reported (w : world) (decoded : str)
        (cond : str -> bool) (sec : list str) (i : N) (L : str) :
  server_js w = Readable decoded ->
  In (cond, sec) (combine conditions (sections_of (main w))) ->
  line_at decoded i L ->
  strip L = [] ->
  ~ In (fstring i L) sec.
Proof.
  intros Hw Hs Hl Hb. destruct (paired_sections w decoded cond sec Hw Hs) as [Hc ->].
  rewrite (In_entries_iff cond _ i L Hl).
  rewrite <- (conditions_strip cond L Hc), Hb.
  destruct Hc as [<- | [<- | [<- | []]]]; discriminate.
Qed.

Lemma blank_lines_never_reported_witness :
  line_at ai_chat_text 3 [LF]
  /\ ~ In (fstring 3 [LF]) (section_files (main ai_chat_world)).
Proof.
  assert (H : line_at ai_chat_text 3 [LF]) by (unfold line_at; in_computed_list).
  refine (conj H _).
  apply (blank_lines_never_reported ai_chat_world ai_chat_text is_route_file
           (section_files (main ai_chat_world)) 3 [LF]).
  - reflexivity.
  - right. right. left. reflexivity.
  - exact H.
  - reflexivity.
Defined.

(** X7: indentation and trailing white space do not matter: two files with
    the same number of lines, whose lines agree once trimmed, give the same
    run. *)
Theorem indentation_does_not_matter (w1 w2 : world) (d1 d2 : str) :
  server_js w1 = Readable d1 ->
  server_js w2 = Readable d2 ->
  Forall2 same_trimmed (readlines d1) (readlines d2) ->
  main w1 = main w2.
Proof.
  intros H1 H2 Hs. now apply (main_same_trimmed w1 w2 d1 d2).
Qed.

Lemma indentation_does_not_matter_witness :
  indented_text <> server_text /\ main indented_world = main server_world.
Proof.
  split; [discriminate|].
  apply (indentation_does_not_matter indented_world server_world
           indented_text server_text); [reflexivity | reflexivity |].
  vm_compute. repeat (constructor; [reflexivity|]). constructor.
Defined.

(** X8: text appended after a final newline leaves the earlier report in
    place: each section of the longer file starts with the whole section of
    the shorter one. *)
Theorem appending_keeps_earlier_report (w w' : world) (body more : str) :
  server_js w = Readable (body ++ [LF]) ->
  server_js w' = Readable (body ++ LF :: more) ->
  Forall2 (fun old new => exists tail, new = old ++ tail)
          (sections_of (main w)) (sections_of (main w')).
Proof.
  intros Hw Hw'.
  destruct (main_sections w _ Hw) as [E1 [E2 E3]].
  destruct (main_sections w' _ Hw') as [F1 [F2 F3]].
  unfold sections_of. rewrite E1, E2, E3, F1, F2, F3.
  rewrite (readlines_after_LF body more).
  repeat (constructor; [apply entries_app|]). constructor.
Qed.

Lemma appending_keeps_earlier_report_witness :
  Forall2 (fun old new => exists tail, new = old ++ tail)
          (sections_of (main head_world)) (sections_of (main closed_world)).
Proof.
  apply (appending_keeps_earlier_report head_world closed_world server_head
           (lit "app.use(cors())" ++ [LF])).
  - reflexivity.
  - vm_compute. reflexivity.
Defined.

(** X9: a missing newline at the end of the file does not matter: the file
    and the file with a final newline added give the same run. *)
Theorem final_newline_does_not_matter (w w' : world) (x : str) (c : char) :
  c <> CR -> c <> LF ->
  server_js w = Readable (x ++ [c]) ->
  server_js w' = Readable (x ++ [c; LF]) ->
  main w' = main w.
Proof.
  intros Hcr Hlf Hw Hw'.
  destruct (readlines_final_newline x c Hcr Hlf) as [ls [l [E1 E2]]].
  apply (main_same_trimmed w' w _ _ Hw' Hw).
  rewrite E1, E2. apply Forall2_app.
  - clear. induction ls; constructor; [reflexivity | assumption].
  - constructor; [|constructor]. apply strip_snoc_space. reflexivity.
Qed.

Lemma final_newline_does_not_matter_witness :
  main closed_world = main server_world.
Proof.
  apply (final_newline_does_not_matter server_world closed_world
           (removelast server_text) 41).
  - discriminate.
  - discriminate.
  - vm_compute. reflexivity.
  - vm_compute. reflexivity.
Defined.

(** X10: an entry reads back: from [Line i: ...] one recovers the number [i]
    and the trimmed text of the line, so two entries are equal only for the
    same number and the same trimmed text. *)
Theorem entry_reads_back (i : N) (line : str) :
  parse_entry (fstring i line) = Some (i, strip line)
  /\ (forall j line', fstring i line = fstring j line' ->
                       i = j /\ strip line = strip line').
Proof.
  assert (G : forall k l, parse_entry (fstring k l) = Some (k, strip l)).
  { intros k l. unfold parse_entry, fstring, str_of_int.
    change (lit "Line ") with [76; 105; 110; 101; 32].
    cbn [app startswith skipn N.eqb Pos.eqb andb].
    rewrite read_uint_digits by reflexivity.
    pose proof (to_uint_not_Nil k) as Hn.
    pose proof (DecimalN.Unsigned.of_to k) as Ho.
    destruct (N.to_uint k); [congruence | ..];
      change (startswith (lit ": ") (lit ": " ++ strip l)) with true;
      cbn [skipn app lit map list_ascii_of_string]; now rewrite Ho. }
  split; [apply G|]. intros j line' E.
  apply (f_equal parse_entry) in E. rewrite !G in E. now injection E.
Qed.

(** X12: matching is by occurrence only: a line that contains a whole line
    satisfying one of the three conditions satisfies that condition too. *)
Theorem matching_survives_added_text (cond : str -> bool) (a b : str) :
  In cond conditions -> occurs a b -> cond a = true -> cond b = true.
Proof.
  intros Hc Hab.
  assert (G : forall p, occurs p a -> occurs p b)
    by (intros p Hp; now apply (occurs_trans p a b)).
  destruct Hc as [<- | [<- | [<- | []]]].
  - rewrite !is_route_import_spec. intuition.
  - rewrite !is_route_mount_spec. intuition.
  - rewrite !is_route_file_spec. intuition.
Qed.

Lemma matching_survives_added_text_witness :
  is_route_mount (lit "// app.use('/api/x', h); was here") = true.
Proof.
  apply (matching_survives_added_text is_route_mount (lit "app.use('/api/x', h)")).
  - right. left. reflexivity.
  - exists (lit "// "), (lit "; was here"). reflexivity.
  - reflexivity.
Defined.

End MoreProperties.

(** ** Facts about the script on a real standard output *)
Module RuntimeFacts.
Import Py SearchRoutes Report Runtime PyFacts ScriptFacts MoreFacts.

(** *** Statements *)

Lemma bind_unit_ret (c : io unit) (st : out_state) : (c ;; ret tt) st = c st.
Proof.
  unfold bind, ret. destruct (c st) as [[e | []] st']; reflexivity.
Qed.

Lemma bind_ext {A B} (c c' : io A) (k k' : A -> io B) (st : out_state) :
  c st = c' st -> (forall x st', k x st' = k' x st') ->
  (x <- c ;; k x) st = (x <- c' ;; k' x) st.
Proof.
  intros Hc Hk. unfold bind. rewrite Hc.
  destruct (c' st) as [[e | x] st']; [reflexivity | apply Hk].
Qed.

Lemma bind_assoc {A B C} (c : io A) (k : A -> io B) (h : B -> io C)
      (st : out_state) :
  (y <- (x <- c ;; k x) ;; h y) st = (x <- c ;; y <- k x ;; h y) st.
Proof.
  unfold bind. destruct (c st) as [[e | x] st']; reflexivity.
Qed.

Lemma for_each_app {A} (a b : list A) (body : A -> io unit) (st : out_state) :
  for_each (a ++ b) body st = (for_each a body ;; for_each b body) st.
Proof.
  revert st; induction a as [|x a IH]; intros st; cbn [app for_each].
  - reflexivity.
  - rewrite bind_assoc. apply bind_ext; [reflexivity|]. intros _ st'. apply IH.
Qed.

Lemma print_on_writes (p : process) (s : str) (st : out_state) :
  print_on p s st = for_each [s; [LF]] (write p) st.
Proof.
  unfold print_on. cbn [for_each]. apply bind_ext; [reflexivity|].
  intros _ st'. symmetry. apply bind_unit_ret.
Qed.

(** A loop of the script makes the writes of its entries. *)
Lemma for_items_writes (p : process) (cond : str -> bool)
      (items : list (N * str)) (st : out_state) :
  for_each items
    (fun '(i, line) =>
       if cond line then print_on p (fstring i line) else ret tt) st
  = for_each
      (flat_map (fun s => [s; [LF]])
         (map (fun il => fstring (fst il) (snd il))
              (filter (fun il => cond (snd il)) items)))
      (write p) st.
Proof.
  revert st; induction items as [|[i line] items IH]; intros st; [reflexivity|].
  cbn [for_each filter snd]. destruct (cond line).
  - cbn [map flat_map fst snd]. rewrite for_each_app.
    apply bind_ext; [apply print_on_writes | intros _ st'; apply IH].
  - unfold bind, ret. apply IH.
Qed.

Lemma for_lines_on_writes (p : process) (cond : str -> bool) (lines : list str)
      (st : out_state) :
  for_lines_on p cond lines st
  = for_each (flat_map (fun s => [s; [LF]]) (entries cond lines)) (write p) st.
Proof. apply for_items_writes. Qed.

Lemma writes_of_parts (lines : list str) :
  writes_of lines
  = [title_imports; [LF]]
    ++ flat_map (fun s => [s; [LF]]) (entries is_route_import lines)
    ++ [LF :: title_mounting; [LF]]
    ++ flat_map (fun s => [s; [LF]]) (entries is_route_mount lines)
    ++ [LF :: title_files; [LF]]
    ++ flat_map (fun s => [s; [LF]]) (entries is_route_file lines).
Proof.
  unfold writes_of, prints_of. cbn [flat_map app].
  rewrite flat_map_app. cbn [flat_map app].
  rewrite flat_map_app. reflexivity.
Qed.

(** The script after a successful read is the sequence of its writes. *)
Lemma script_writes (p : process) (decoded : str) (st : out_state) :
  decoded_file p = Some decoded ->
  script p st = for_each (writes_of (readlines decoded)) (write p) st.
Proof.
  intros Hd. unfold script.
  assert (Hr : read_on p st = (inr (readlines decoded), st)).
  { unfold read_on, decoded_file in *. destruct (server_file p); [discriminate|].
    now rewrite Hd. }
  unfold bind at 1. rewrite Hr. rewrite writes_of_parts.
  repeat (rewrite for_each_app;
          apply bind_ext;
          [ first [ apply print_on_writes | apply for_lines_on_writes ]
          | intros _ ? ]).
  apply for_lines_on_writes.
Qed.

(** *** Sequences of writes *)

Lemma translate_app (sep a b : str) :
  translate sep (a ++ b) = translate sep a ++ translate sep b.
Proof. apply flat_map_app. Qed.

Lemma translate_LF (s : str) : translate [LF] s = s.
Proof.
  unfold translate. induction s as [|c s IH]; [reflexivity|].
  cbn [flat_map]. rewrite IH.
  destruct (N.eqb_spec c LF) as [->|_]; reflexivity.
Qed.

Lemma translate_no_LF (sep s : str) : ~ In LF s -> translate sep s = s.
Proof.
  unfold translate. induction s as [|c s IH]; intros H; [reflexivity|].
  cbn [flat_map]. rewrite IH by (intros G; apply H; now right).
  destruct (N.eqb_spec c LF) as [->|_]; [|reflexivity].
  exfalso. apply H. now left.
Qed.

Lemma write_cases (p : process) (t : str) (st : out_state) :
  (chunk_ok p t = true /\ fault_at (dev p) <> Some (count st)
   /\ write p t st
      = (inr tt, {| count := S (count st);
                    text := text st ++ translate (linesep p) t |}))
  \/ ((chunk_ok p t = false \/ fault_at (dev p) = Some (count st))
      /\ exists e, write p t st = (inl e, st)).
Proof.
  unfold write, chunk_ok.
  destruct (forallb (encodable p) (translate (linesep p) t)).
  - destruct (fault_at (dev p)) as [n|].
    + destruct (Nat.eqb_spec n (count st)) as [->|Hn].
      * right. split; [now right | now exists WriteError].
      * left. repeat split. congruence.
    + left. repeat split. discriminate.
  - right. split; [now left | now exists UnicodeEncodeError].
Qed.

Lemma writes_ok (p : process) (ws : list str) (st : out_state) :
  forallb (chunk_ok p) ws = true -> no_fault p st (length ws) ->
  for_each ws (write p) st
  = (inr tt, {| count := count st + length ws;
                text := text st ++ translate (linesep p) (concat ws) |}).
Proof.
  revert st; induction ws as [|t ws IH]; intros st Hok Hf.
  - cbn. rewrite Nat.add_0_r, app_nil_r. now destruct st.
  - cbn [forallb] in Hok. apply andb_true_iff in Hok. destruct Hok as [Ht Hok].
    cbn [for_each]. unfold bind.
    destruct (write_cases p t st) as [[_ [_ ->]] | [[Hc | Hc] _]].
    + rewrite IH; [|exact Hok|].
      * cbn [count text length concat]. rewrite translate_app, app_assoc.
        do 2 f_equal. lia.
      * intros k Hk. cbn [count]. destruct (Hf k Hk); cbn [length] in *; lia.
    + congruence.
    + destruct (Hf _ Hc); cbn [length] in *; lia.
Qed.

Lemma writes_inr (p : process) (ws : list str) (st st' : out_state) :
  for_each ws (write p) st = (inr tt, st') ->
  forallb (chunk_ok p) ws = true /\ no_fault p st (length ws).
Proof.
  revert st; induction ws as [|t ws IH]; intros st H.
  - split; [reflexivity|]. intros k _. cbn. lia.
  - cbn [for_each] in H. unfold bind in H.
    destruct (write_cases p t st) as [[Ht [Hn E]] | [_ [e E]]];
      rewrite E in H; [|discriminate].
    apply IH in H. destruct H as [Hok Hf]. split.
    + cbn [forallb]. now rewrite Ht, Hok.
    + intros k Hk. destruct (Hf k Hk) as [G | G]; cbn [count length] in *.
      * assert (k <> count st) by congruence. lia.
      * lia.
Qed.

(** What has been written is always the beginning of what was asked. *)
Lemma writes_text (p : process) (ws : list str) (st : out_state) :
  exists n, text (snd (for_each ws (write p) st))
            = text st ++ translate (linesep p) (concat (firstn n ws)).
Proof.
  revert st; induction ws as [|t ws IH]; intros st.
  - exists 0%nat. cbn. now rewrite app_nil_r.
  - cbn [for_each]. unfold bind.
    destruct (write_cases p t st) as [[_ [_ ->]] | [_ [e ->]]].
    + destruct (IH {| count := S (count st);
                      text := text st ++ translate (linesep p) t |}) as [n Hn].
      exists (S n). rewrite Hn. cbn [text firstn concat].
      now rewrite translate_app, app_assoc.
    + exists 0%nat. cbn. now rewrite app_nil_r.
Qed.

Lemma concat_writes (prints : list str) :
  concat (flat_map (fun s => [s; [LF]]) prints)
  = flat_map (fun e => e ++ [LF]) prints.
Proof.
  induction prints as [|s prints IH]; [reflexivity|].
  cbn [flat_map concat app]. rewrite IH. now rewrite <- app_assoc.
Qed.

(** Joined, the writes of a scan are the stream of [SearchRoutes.scan]. *)
Lemma concat_writes_of (lines : list str) :
  concat (writes_of lines) = scan lines [].
Proof.
  unfold writes_of. rewrite concat_writes, scan_stream. unfold prints_of.
  cbn [flat_map]. rewrite flat_map_app. cbn [flat_map].
  rewrite flat_map_app. cbn [flat_map].
  rewrite app_nil_r, <- !app_assoc. reflexivity.
Qed.

(** *** The characters of a report *)



(** ASCII and no carriage return. *)
Lemma plain_chars (s : str) (c : char) :
  forallb (fun x => (x <? 128) && negb (x =? CR)) s = true ->
  In c s -> c < 128 /\ c <> CR.
Proof.
  intros H Hin. rewrite forallb_forall in H. specialize (H c Hin).
  apply andb_true_iff in H. destruct H as [H1 H2].
  apply N.ltb_lt in H1. apply negb_true_iff, N.eqb_neq in H2. now split.
Qed.

Lemma fstring_chars (i : N) (line : str) (c : char) :
  In c (fstring i line) -> (c < 128 /\ c <> CR) \/ In c line.
Proof.
  unfold fstring. rewrite !in_app_iff. intros [H | [H | [H | H]]].
  - left. revert H. now apply plain_chars.
  - left. apply digits_range in H. unfold CR. lia.
  - left. revert H. now apply plain_chars.
  - right. now apply In_strip.
Qed.

Lemma entries_chars (cond : str -> bool) (lines : list str) (c : char) :
  In c (flat_map (fun e => e ++ [LF]) (entries cond lines)) ->
  (c < 128 /\ c <> CR) \/ exists line, In line lines /\ In c line.
Proof.
  intros H. apply in_flat_map in H. destruct H as [e [He H]].
  apply in_app_iff in H. destruct H as [H | [<- | []]].
  - apply entries_spec in He. destruct He as [i [line [-> [Hin _]]]].
    apply fstring_chars in H. destruct H as [H | H]; [now left | right].
    exists line. split; [eapply enumerate_snd, Hin | exact H].
  - left. unfold LF, CR. lia.
Qed.

Lemma scan_chars (lines : list str) (c : char) :
  In c (scan lines []) ->
  (c < 128 /\ c <> CR) \/ exists line, In line lines /\ In c line.
Proof.
  rewrite scan_stream. intros H.
  repeat (apply in_app_iff in H; destruct H as [H | H];
          [ first [ now apply entries_chars in H
                  | left; revert H; now apply plain_chars ] |];
          destruct H as [<- | H]; [left; unfold LF, CR; lia |]).
  apply in_app_iff in H. destruct H as [H | []]. now apply entries_chars in H.
Qed.

Lemma scan_no_CR (decoded : str) : ~ In CR (scan (readlines decoded) []).
Proof.
  intros H. apply scan_chars in H. destruct H as [[_ H] | [line [Hl H]]].
  - now apply H.
  - now apply (readlines_no_CR decoded line).
Qed.


Lemma scan_starts (lines : list str) :
  exists rest, scan lines [] = 61 :: rest.
Proof. rewrite scan_stream. eexists. reflexivity. Qed.

(** *** Whole runs *)

Lemma seen_readable (p : process) (decoded : str) :
  decoded_file p = Some decoded ->
  stdout (main (seen p)) = scan (readlines decoded) [].
Proof.
  intros H. unfold main, seen. cbn [server_js]. now rewrite H.
Qed.

Lemma run_on_unreadable (p : process) :
  decoded_file p = None ->
  written (run_on p) = [] /\ exit_status (run_on p) = 1
  /\ (raised (run_on p) = Some OpenError
      \/ raised (run_on p) = Some UnicodeDecodeError).
Proof.
  unfold decoded_file, run_on, script, bind, read_on, raise.
  destruct (server_file p) as [|bytes].
  - intros _. cbn. rewrite andb_false_r. now repeat split; try left.
  - intros ->. cbn. rewrite andb_false_r. now repeat split; try right.
Qed.

Lemma run_on_readable (p : process) (decoded : str) :
  decoded_file p = Some decoded ->
  run_on p
  = match for_each (writes_of (readlines decoded)) (write p)
            {| count := 0; text := [] |} with
    | (r, st) =>
        {| written := text st;
           raised := match r with inl e => Some e | inr _ => None end;
           exit_status :=
             if flush_fails (dev p) && negb (str_eqb (text st) []) then 120
             else match r with inl _ => 1 | inr _ => 0 end |}
    end.
Proof. intros H. unfold run_on. now rewrite (script_writes p decoded). Qed.

Lemma takes_ok (p : process) (ws : list str) :
  stdout_takes p ws = true ->
  forallb (chunk_ok p) ws = true
  /\ no_fault p {| count := 0; text := [] |} (length ws)
  /\ flush_fails (dev p) = false.
Proof.
  unfold stdout_takes, no_fault. rewrite !andb_true_iff, negb_true_iff.
  intros [[H1 H2] H3]. repeat split; try assumption.
  intros k Hk. rewrite Hk in H2. apply Nat.leb_le in H2. cbn. lia.
Qed.

Lemma ok_takes (p : process) (ws : list str) :
  forallb (chunk_ok p) ws = true ->
  no_fault p {| count := 0; text := [] |} (length ws) ->
  flush_fails (dev p) = false ->
  stdout_takes p ws = true.
Proof.
  unfold stdout_takes, no_fault. intros -> Hf ->. cbn.
  destruct (fault_at (dev p)) as [k|]; [|reflexivity].
  rewrite andb_true_r. apply Nat.leb_le.
  destruct (Hf k eq_refl) as [H | H]; cbn in H; lia.
Qed.

Lemma translate_scan_not_empty (sep : str) (lines : list str) :
  str_eqb (translate sep (scan lines [])) [] = false.
Proof. destruct (scan_starts lines) as [rest ->]. reflexivity. Qed.

(** When standard output takes every write, the run is the complete scan. *)
Lemma run_on_takes (p : process) (decoded : str) :
  decoded_file p = Some decoded ->
  stdout_takes p (writes_of (readlines decoded)) = true ->
  run_on p = {| written := translate (linesep p) (scan (readlines decoded) []);
                raised := None;
                exit_status := 0 |}.
Proof.
  intros Hd Ht. destruct (takes_ok p _ Ht) as [Hok [Hf Hfl]].
  rewrite (run_on_readable p decoded Hd), (writes_ok p _ _ Hok Hf).
  cbn [text app]. now rewrite concat_writes_of, Hfl.
Qed.

Lemma status_zero_iff (p : process) (decoded : str) :
  decoded_file p = Some decoded ->
  (exit_status (run_on p) = 0 <->
   stdout_takes p (writes_of (readlines decoded)) = true).
Proof.
  intros Hd. split.
  - rewrite (run_on_readable p decoded Hd).
    destruct (for_each _ _ _) as [[e | []] st] eqn:E; cbn [exit_status].
    + destruct (_ && _); discriminate.
    + destruct (writes_inr p _ _ _ E) as [Hok Hf].
      pose proof (writes_ok p _ _ Hok Hf) as E'. rewrite E in E'.
      apply (f_equal snd), (f_equal text) in E'. cbn [snd text app] in E'.
      rewrite E', concat_writes_of, translate_scan_not_empty, andb_true_r.
      destruct (flush_fails (dev p)) eqn:Hfl; [discriminate|].
      intros _. now apply ok_takes.
  - intros Ht. now rewrite (run_on_takes p decoded Hd Ht).
Qed.

(** *** Two processes *)



(** What is written is made of the line separator and of characters of the
    complete report. *)
Lemma written_chars (p : process) (decoded : str) (c : char) :
  decoded_file p = Some decoded ->
  In c (written (run_on p)) ->
  In c (linesep p) \/ In c (scan (readlines decoded) []).
Proof.
  intros Hd. rewrite (run_on_readable p decoded Hd).
  destruct (writes_text p (writes_of (readlines decoded))
              {| count := 0; text := [] |}) as [n Hn].
  destruct (for_each _ _ _) as [r st]. cbn [snd text written app] in *.
  rewrite Hn. unfold translate. intros H. apply in_flat_map in H.
  destruct H as [x [Hx H]]. destruct (N.eqb_spec x LF) as [->|_].
  - now left.
  - destruct H as [<- | []]. right. rewrite <- concat_writes_of.
    apply in_concat in Hx. destruct Hx as [t [Ht Hx]]. apply in_concat.
    exists t. split; [|exact Hx].
    rewrite <- (firstn_skipn n (writes_of (readlines decoded))).
    apply in_or_app. now left.
Qed.



(** *** ASCII *)






End RuntimeFacts.

(** ** Properties of the script on a real standard output *)
Module RuntimeProperties.
Import Py SearchRoutes Report Runtime RuntimeSamples.
Import PyFacts ScriptFacts MoreFacts RuntimeFacts.

(** The read succeeds and the script ends normally, yet the exit status is
    120: the flush of standard output at exit fails on a full disk. *)
Lemma read_is_not_the_only_failure :
  decoded_file full_disk_process <> None
  /\ raised (run_on full_disk_process) = None
  /\ exit_status (run_on full_disk_process) = 120.
Proof. repeat split. discriminate. Qed.

(** C6: when [server.js] cannot be opened or decoded, nothing is written to
    standard output and the exit status is 1.  When the read succeeds, the
    exit status is other than 0 exactly when standard output does not take
    the writes of the report: a character has no encoding, the device
    refuses a write, or the flush at exit fails. *)
Theorem failure_is_read_or_stdout (p : process) :
  (decoded_file p = None ->
   written (run_on p) = [] /\ output_bytes p = Some []
   /\ exit_status (run_on p) = 1)
  /\ (forall decoded, decoded_file p = Some decoded ->
        (exit_status (run_on p) <> 0 <->
         stdout_takes p (writes_of (readlines decoded)) = false)).
Proof.
  split.
  - intros Hd. destruct (run_on_unreadable p Hd) as [Hw [Hs Hr]].
    repeat split; try assumption.
    unfold output_bytes. rewrite Hs, Hw. now destruct Hr as [-> | ->].
  - intros decoded Hd. rewrite (status_zero_iff p decoded Hd).
    now destruct (stdout_takes p _).
Qed.

Lemma failure_is_read_or_stdout_witness :
  decoded_file no_file_process = None
  /\ written (run_on no_file_process) = []
  /\ output_bytes no_file_process = Some []
  /\ exit_status (run_on no_file_process) = 1.
Proof.
  exact (conj eq_refl
           (proj1 (failure_is_read_or_stdout no_file_process) eq_refl)).
Defined.




(** The read succeeds, the first banner is printed, and the [print] of the
    first entry raises: standard output encodes in ASCII and the line holds
    an e acute.  The run ends with status 1 after one banner. *)
Lemma print_fails_after_read :
  decoded_file ascii_out_process <> None
  /\ raised (run_on ascii_out_process) = Some UnicodeEncodeError
  /\ exit_status (run_on ascii_out_process) = 1
  /\ written (run_on ascii_out_process) = title_imports ++ [LF].
Proof. repeat split. discriminate. Qed.

(** C9: once the read of [server.js] has succeeded, the substring tests, the
    trimming and the formatting cannot fail; the passes fail only through
    standard output.  When standard output takes every write of the report
    (each character has an encoding, the device refuses no write nor the
    flush at exit), the run raises nothing, ends with status 0, and has
    written the complete report of the three passes: first banner and its
    entries, blank line, second banner and its entries, blank line, third
    banner and its entries. *)
Theorem scan_completes_when_stdout_takes_it (p : process) (decoded : str) :
  decoded_file p = Some decoded ->
  stdout_takes p (writes_of (readlines decoded)) = true ->
  raised (run_on p) = None
  /\ exit_status (run_on p) = 0
  /\ written (run_on p) = translate (linesep p) (stdout (main (seen p)))
  /\ output_bytes p
     = Some (bytes_of p (translate (linesep p) (stdout (main (seen p)))))
  /\ lines_of (stdout (main (seen p)))
     = title_imports :: entries is_route_import (readlines decoded)
       ++ [] :: title_mounting :: entries is_route_mount (readlines decoded)
       ++ [] :: title_files :: entries is_route_file (readlines decoded).
Proof.
  intros Hd Ht. rewrite (seen_readable p decoded Hd).
  unfold output_bytes. rewrite (run_on_takes p decoded Hd Ht).
  cbn [raised exit_status written]. repeat split.
  apply scan_lines, readlines_file_line.
Qed.

Lemma scan_completes_when_stdout_takes_it_witness :
  raised (run_on latin_process) = None
  /\ exit_status (run_on latin_process) = 0
  /\ length (lines_of (written (run_on latin_process))) = 7%nat.
Proof.
  destruct (scan_completes_when_stdout_takes_it latin_process
              (map Byte.to_N cafe_bytes) eq_refl eq_refl)
    as [Hr [Hs [Hw _]]].
  refine (conj Hr (conj Hs _)). rewrite Hw. reflexivity.
Defined.

(** X11: where standard output writes a newline as a line feed alone, no
    carriage return is among the characters written, whatever the bytes of
    [server.js] and the encodings. *)
Theorem no_carriage_return_with_LF_line_ends (p : process) :
  linesep p = [LF] -> ~ In CR (written (run_on p)).
Proof.
  intros Hl H. destruct (decoded_file p) as [decoded|] eqn:E.
  - destruct (written_chars p decoded CR E H) as [G | G].
    + rewrite Hl in G. destruct G as [G | []]. discriminate.
    + now apply scan_no_CR in G.
  - destruct (run_on_unreadable p E) as [Hw _]. rewrite Hw in H. destruct H.
Qed.

Lemma no_carriage_return_with_LF_line_ends_witness :
  In Byte.x0d crlf_bytes
  /\ length (lines_of (written (run_on crlf_process))) = 7%nat
  /\ ~ In CR (written (run_on crlf_process)).
Proof.
  split; [vm_compute; tauto|]. split; [reflexivity|].
  exact (no_carriage_return_with_LF_line_ends crlf_process eq_refl).
Defined.

End RuntimeProperties.
